(** * gobol: the timeline transport core and the solar Solr service

    A shallow embedding of [timeline/transport.go] and
    [solar/solr_service.go], and the properties of the batching core
    and of the Solr wrapper proved (or refuted) on it. *)

From Stdlib Require Import ZArith QArith List String Lia.
From stdpp Require Import base gmap strings list.
Import ListNotations.

Local Open Scope Z_scope.

(** ** Package timeline *)

Module Timeline.

(** *** Configuration: [DefaultTransportConfiguration.Validate] *)

(** [time.Duration] is an [int64] count of nanoseconds. *)
Definition Duration := Z.

Definition Second : Duration := 1000000000.

(** [func (d Duration) Seconds() float64] of the Go library:
    [sec := d / Second; nsec := d % Second;
     return float64(sec) + float64(nsec)/1e9].
    Go's [/] and [%] on integers truncate towards zero ([Z.quot], [Z.rem]).
    The sum is kept exact, as a rational: [sec] and [nsec] have the sign
    of [d], and each [float64] operation rounds monotonically and is
    exact at 0, so the comparison with 0 that [Validate] performs has
    the same answer on both. *)
Definition Seconds (d : Duration) : Q :=
  (inject_Z (Z.quot d Second) + inject_Z (Z.rem d Second) / inject_Z 1000000000)%Q.

Record DefaultTransportConfiguration := {
  TransportBufferSize : Z;
  BatchSendInterval : Duration;
  RequestTimeout : Duration;
  SerializerBufferSize : Z
}.

(** The four errors [Validate] builds with [fmt.Errorf], with the value
    each message prints. *)
Inductive configError :=
| InvalidBufferSize (n : Z)              (* "invalid buffer size: %d" *)
| InvalidSerializerBufferSize (n : Z)    (* "invalid serializer buffer size: %d" *)
| InvalidBatchSendInterval (d : Duration)  (* "invalid batch send interval: %s" *)
| InvalidRequestTimeout (d : Duration).  (* "invalid request timeout interval: %s" *)

(** [Validate]: [None] is Go's [nil] error. *)
Definition Validate (c : DefaultTransportConfiguration) : option configError :=
  if TransportBufferSize c <=? 0 then
    Some (InvalidBufferSize (TransportBufferSize c))
  else if SerializerBufferSize c <=? 0 then
    Some (InvalidSerializerBufferSize (SerializerBufferSize c))
  else if Qle_bool (Seconds (BatchSendInterval c)) 0 then
    Some (InvalidBatchSendInterval (BatchSendInterval c))
  else if Qle_bool (Seconds (RequestTimeout c)) 0 then
    Some (InvalidRequestTimeout (RequestTimeout c))
  else None.

(** *** The batching core: [transportCore] and [transferDataLoop] *)

Section Core.

(** The items of the data channel ([interface{}] in the source). *)
Context {Item : Type}.

(** A buffered Go channel [chan interface{}]: the queued items, oldest
    first, the capacity given to [make], and whether [close] was called. *)
Record channel := {
  buf : list Item;
  capacity : nat;
  closed : bool
}.

(** What the loop writes to [t.logger]; one constructor per message. *)
Inductive message :=
| MsgStarting            (* Info "starting transport..." *)
| MsgInitializing        (* Info "initializing transfer data loop..." *)
| MsgSkipping            (* Info "another data transfer is in progress, skipping..." *)
| MsgBreaking            (* Info "breaking data transfer loop" *)
| MsgEmpty               (* Info "buffer is empty, no data will be send" *)
| MsgSending (n : nat)   (* Info "sending a batch of %d points..." *)
| MsgSent (n : nat)      (* Info "batch of %d points were sent!" *)
| MsgClosing             (* Info "closing..." *)
| MsgError (e : string). (* Error err.Error() *)

(** The control points of the goroutine that runs [transferDataLoop];
    [points] is the local slice of the current cycle. *)
Inductive pc :=
| NotStarted                       (* before Start() *)
| AtInit                           (* line 116: first log line *)
| AtTimer                          (* line 120: <-time.After(t.batchSendInterval) *)
| AtCheck                          (* line 122: if t.dataTransferInProgress > 0 *)
| AtSet                            (* line 127: go atomic.SwapUint32(&flag, 1) *)
| AtDrain (points : list Item)     (* lines 133-147: the select of innerLoop *)
| AtCount (points : list Item)     (* lines 149-156: numPoints == 0 ? *)
| AtTransfer (points : list Item)  (* line 158: inside t.transport.TransferData(points) *)
| AtClear                          (* line 165: go atomic.SwapUint32(&flag, 0) *)
| Exited.                          (* after break outterFor *)

(** The core together with what runs on it. Of the fields of
    [transportCore], [pointChannel], [dataTransferInProgress] (a [uint32]
    that only ever holds 0 or 1) and [logger] are state; [transport] is
    the sender, whose [TransferData] is a call that the environment
    answers, and [batchSendInterval] is the period of the timer, which
    the environment fires. [goroutines] holds the goroutines spawned by
    the two [go atomic.SwapUint32(&flag, v)] statements that have not run
    yet, each with the value [v] it will store; [loop] is where the loop
    goroutine stands; [transfers] is the history of the batches handed to
    [TransferData], oldest first. *)
Record state := {
  pointChannel : channel;
  dataTransferInProgress : Z;
  logger : list message;
  goroutines : list Z;
  loop : pc;
  transfers : list (list Item)
}.

Definition set_chan (c : channel) (s : state) : state :=
  {| pointChannel := c; dataTransferInProgress := dataTransferInProgress s;
     logger := logger s; goroutines := goroutines s; loop := loop s;
     transfers := transfers s |}.

Definition set_flag (v : Z) (s : state) : state :=
  {| pointChannel := pointChannel s; dataTransferInProgress := v;
     logger := logger s; goroutines := goroutines s; loop := loop s;
     transfers := transfers s |}.

Definition log (m : message) (s : state) : state :=
  {| pointChannel := pointChannel s;
     dataTransferInProgress := dataTransferInProgress s;
     logger := logger s ++ [m]; goroutines := goroutines s; loop := loop s;
     transfers := transfers s |}.

Definition set_goroutines (g : list Z) (s : state) : state :=
  {| pointChannel := pointChannel s;
     dataTransferInProgress := dataTransferInProgress s;
     logger := logger s; goroutines := g; loop := loop s;
     transfers := transfers s |}.

Definition goto (p : pc) (s : state) : state :=
  {| pointChannel := pointChannel s;
     dataTransferInProgress := dataTransferInProgress s;
     logger := logger s; goroutines := goroutines s; loop := p;
     transfers := transfers s |}.

Definition record_transfer (points : list Item) (s : state) : state :=
  {| pointChannel := pointChannel s;
     dataTransferInProgress := dataTransferInProgress s;
     logger := logger s; goroutines := goroutines s; loop := loop s;
     transfers := transfers s ++ [points] |}.

(** [go f(v)]: the call is queued, it runs when the scheduler picks it. *)
Definition spawn (v : Z) (s : state) : state :=
  set_goroutines (goroutines s ++ [v]) s.

(** Modelled from the spec: the constructor of [transportCore] is not in
    transport.go. The Transfer State flag is "false at construction"
    (section 3), which is also Go's zero value of the [uint32] field, and
    the input queue starts empty with a configured capacity (section
    4.2), [make(chan interface{}, n)]. *)
Definition new_core (n : nat) : state :=
  {| pointChannel := {| buf := []; capacity := n; closed := false |};
     dataTransferInProgress := 0;
     logger := [];
     goroutines := [];
     loop := NotStarted;
     transfers := [] |}.

(** [Start]: logs, then [go t.transferDataLoop()]. The model has one loop
    goroutine: [Start] is called once. *)
Definition Start (s : state) : state :=
  goto AtInit (log MsgStarting s).

Definition init (n : nat) : state := Start (new_core n).

(** What can happen next: a producer sends, [Close] is called, the timer
    fires, the loop goroutine runs its next statement, the sender returns
    from [TransferData], or the scheduler runs a spawned goroutine. *)
Inductive action :=
| Send (x : Item)
| CallClose
| Tick
| Loop
| Return (err : option string)
| Go (i : nat).

Inductive outcome :=
| Next (s : state)
| Blocked          (* the action cannot happen in this state *)
| Panics (s : state).
                   (* send on, or close of, a closed channel: the program
                      dies, in the state [s] *)

(** One statement of [transferDataLoop], at the control point [loop s].
    The statements of a goroutine run one at a time, interleaved with
    those of the others. *)
Definition transferDataLoop (s : state) : outcome :=
  match loop s with
  | AtInit => Next (goto AtTimer (log MsgInitializing s))
  | AtCheck =>
      if 0 <? dataTransferInProgress s
      then Next (goto AtTimer (log MsgSkipping s))          (* continue *)
      else Next (goto AtSet s)
  | AtSet => Next (goto (AtDrain []) (spawn 1 s))
  | AtDrain points =>
      let c := pointChannel s in
      match buf c with
      | point :: rest =>                                    (* ok = true *)
          Next (goto (AtDrain (points ++ [point]))
                  (set_chan {| buf := rest; capacity := capacity c;
                               closed := closed c |} s))
      | [] =>
          if closed c
          then Next (goto Exited (log MsgBreaking s))       (* break outterFor *)
          else Next (goto (AtCount points) s)               (* default: break innerLoop *)
      end
  | AtCount points =>
      if Nat.eqb (length points) 0
      then Next (goto AtTimer (log MsgEmpty s))             (* continue *)
      else Next (goto (AtTransfer points)
                   (record_transfer points
                      (log (MsgSending (length points)) s)))
  | AtClear => Next (goto AtTimer (spawn 0 s))
  | NotStarted | AtTimer | AtTransfer _ | Exited => Blocked
  end.

(** Lines 158-163: [TransferData] returns [err] to the loop, which logs
    the error or the success. *)
Definition TransferData_returns (err : option string) (s : state) : outcome :=
  match loop s with
  | AtTransfer points =>
      Next (goto AtClear
              (log (match err with
                    | Some e => MsgError e
                    | None => MsgSent (length points)
                    end) s))
  | _ => Blocked
  end.

(** [Close]: logs "closing..." (line 178), then [close(t.pointChannel)]
    (line 180), which panics on a channel that is closed already: the
    line is in the log by then. *)
Definition Close (s : state) : outcome :=
  let c := pointChannel s in
  if closed c then Panics (log MsgClosing s)
  else Next (set_chan {| buf := buf c; capacity := capacity c;
                         closed := true |} (log MsgClosing s)).

(** A producer's [t.DataChannel() <- x]: it panics on a closed channel
    and waits while the buffer is full. *)
Definition send (x : Item) (s : state) : outcome :=
  let c := pointChannel s in
  if closed c then Panics s
  else if Nat.ltb (length (buf c)) (capacity c)
  then Next (set_chan {| buf := buf c ++ [x]; capacity := capacity c;
                         closed := false |} s)
  else Blocked.

(** The timer of line 120 delivers: the loop wakes up. *)
Definition timer_fires (s : state) : outcome :=
  match loop s with
  | AtTimer => Next (goto AtCheck s)
  | _ => Blocked
  end.

(** The [i]-th pending goroutine runs its [atomic.SwapUint32(&flag, v)]
    and ends. *)
Definition run_goroutine (i : nat) (s : state) : outcome :=
  match goroutines s !! i with
  | Some v => Next (set_flag v (set_goroutines (delete i (goroutines s)) s))
  | None => Blocked
  end.

Definition step (a : action) (s : state) : outcome :=
  match a with
  | Send x => send x s
  | CallClose => Close s
  | Tick => timer_fires s
  | Loop => transferDataLoop s
  | Return err => TransferData_returns err s
  | Go i => run_goroutine i s
  end.

Fixpoint run (tr : list action) (s : state) : outcome :=
  match tr with
  | [] => Next s
  | a :: tr' =>
      match step a s with
      | Next s' => run tr' s'
      | o => o
      end
  end.

(** The items the producers put on the channel along a trace. *)
Definition sent (tr : list action) : list Item :=
  flat_map (fun a => match a with Send x => [x] | _ => [] end) tr.

Definition reachable (n : nat) (s : state) : Prop :=
  exists tr, run tr (init n) = Next s.

(** **** What an execution shows from outside *)

(** The items a step took off the channel: only the loop goroutine
    receives, and what it received is what left the front of the buffer. *)
Definition dequeued (a : action) (s s' : state) : list Item :=
  match a with
  | Loop => take (length (buf (pointChannel s)) - length (buf (pointChannel s')))
              (buf (pointChannel s))
  | _ => []
  end.

(** The [TransferData] calls a step made: what it added to the history. *)
Definition called (a : action) (s s' : state) : list (list Item) :=
  drop (length (transfers s)) (transfers s').

(** What was observed, step by step, since the last timer tick: a drain
    cycle starts when the timer fires. *)
Fixpoint in_cycle {A : Type} (obs : action -> state -> state -> list A)
    (tr : list action) (s : state) (acc : list A) : list A :=
  match tr with
  | [] => acc
  | a :: tr' =>
      match step a s with
      | Next s' =>
          in_cycle obs tr' s'
            (match a with Tick => [] | _ => acc ++ obs a s s' end)
      | _ => acc
      end
  end.

(** The number of times the sender returned along a trace. *)
Definition returns (tr : list action) : nat :=
  length (List.filter (fun a => match a with Return _ => true | _ => false end) tr).

(** The [TransferData] invocations in flight after a trace that leads to
    [s]: those started and not yet returned. *)
Definition in_flight (tr : list action) (s : state) : nat :=
  (length (transfers s) - returns tr)%nat.

(** A state without its log. *)
Definition forget_logs (s : state) : state :=
  {| pointChannel := pointChannel s;
     dataTransferInProgress := dataTransferInProgress s;
     logger := []; goroutines := goroutines s; loop := loop s;
     transfers := transfers s |}.

(** Two outcomes that differ in the log only. *)
Definition same_but_logs (o1 o2 : outcome) : Prop :=
  match o1, o2 with
  | Next s1, Next s2 => forget_logs s1 = forget_logs s2
  | Blocked, Blocked => True
  | Panics s1, Panics s2 => forget_logs s1 = forget_logs s2
  | _, _ => False
  end.

(** The flag is set and nothing that is pending will clear it, while the
    loop waits for, or is at, the check. *)
Definition flag_stuck (s : state) : Prop :=
  0 < dataTransferInProgress s /\
  Forall (fun v => 0 < v) (goroutines s) /\
  (loop s = AtTimer \/ loop s = AtCheck).

(** The points the current cycle holds that no [TransferData] call has
    received yet. *)
Definition held (p : pc) : list Item :=
  match p with
  | AtDrain points | AtCount points => points
  | _ => []
  end.

(** What each control point knows of the items [D] dequeued and of the
    calls [C] made since the last tick. *)
Definition cycle_inv (p : pc) (D : list Item) (C : list (list Item)) : Prop :=
  match p with
  | NotStarted | AtInit | AtCheck | AtSet => D = [] /\ C = []
  | AtDrain points | AtCount points => D = points /\ C = []
  | AtTransfer points => D = points /\ C = [points] /\ points <> []
  | AtClear => C = [D] /\ D <> []
  | AtTimer | Exited => C = [] \/ (C = [D] /\ D <> [])
  end.

(** Where every item sent so far is: in a batch handed to the sender, in
    the hands of the loop, or still on the channel; or, once the loop has
    left, in what it held when it left. *)
Definition delivery_inv (tr : list action) (s : state) : Prop :=
  match loop s with
  | Exited =>
      exists dropped,
        sent tr = concat (transfers s) ++ dropped /\
        buf (pointChannel s) = [] /\ closed (pointChannel s) = true
  | AtTransfer points =>
      sent tr = concat (transfers s) ++ buf (pointChannel s) /\
      exists earlier, transfers s = earlier ++ [points]
  | p => sent tr = concat (transfers s) ++ held p ++ buf (pointChannel s)
  end.

(** Calls and returns of the sender alternate. *)
Definition flight_inv (tr : list action) (s : state) : Prop :=
  length (transfers s) =
  (returns tr + match loop s with AtTransfer _ => 1 | _ => 0 end)%nat.

(** **** What the log reports *)

(** The batch sizes announced by "sending a batch of %d points...",
    oldest first. *)
Definition announced (l : list message) : list nat :=
  flat_map (fun m => match m with MsgSending k => [k] | _ => [] end) l.

(** The results logged after a transfer, oldest first: [inl k] for
    "batch of %d points were sent!", [inr e] for the error [e]. *)
Definition reported (l : list message) : list (nat + string) :=
  flat_map (fun m => match m with
                     | MsgSent k => [inl k]
                     | MsgError e => [inr e]
                     | _ => []
                     end) l.

(** The results the sender returned along a trace. *)
Definition returned (tr : list action) : list (option string) :=
  flat_map (fun a => match a with Return err => [err] | _ => [] end) tr.

(** What the log line of lines 159-163 is for a batch and a result. *)
Definition report_of (points : list Item) (err : option string) : nat + string :=
  match err with
  | Some e => inr e
  | None => inl (length points)
  end.

(** An action that a producer or the owner of the core performs on the
    channel. *)
Definition on_channel (a : action) : bool :=
  match a with
  | Send _ | CallClose => true
  | _ => false
  end.

(** An action of the scheduler on a spawned goroutine. *)
Definition is_Go (a : action) : bool :=
  match a with
  | Go _ => true
  | _ => false
  end.

(** A whole cycle in which nobody but the loop acts and each spawned
    goroutine runs at once: the tick, the check, the set and its
    goroutine, [k] receives and the empty select, the count and the call,
    the return of the sender, the clear and its goroutine. *)
Definition quiet_cycle (k : nat) (err : option string) : list action :=
  [Tick; Loop; Loop; Go 0] ++ repeat Loop (S k) ++
  [Loop; Return err; Loop; Go 0].

(** The core waits at the timer with the flag clear, nothing pending, and
    the channel open. *)
Definition idle (s : state) : Prop :=
  loop s = AtTimer /\ dataTransferInProgress s = 0 /\
  goroutines s = [] /\ closed (pointChannel s) = false.

End Core.

Arguments channel : clear implicits.
Arguments pc : clear implicits.
Arguments state : clear implicits.
Arguments action : clear implicits.
Arguments outcome : clear implicits.

(** Two executions with strings for items, capacity 2. In the first, two
    items are sent, a cycle hands them over with each goroutine run at
    once, and a third item is sent. In the second, an item is sent and
    [Close] is called before the first tick, and the cycle that follows
    leaves the loop. *)
Definition a_delivery : list (action string) :=
  [Loop; Send "A"; Send "B"; Tick; Loop; Loop; Go 0; Loop; Loop; Loop;
   Loop; Return None; Loop; Go 0; Send "C"]%string.

Definition a_shutdown : list (action string) :=
  [Loop; Send "A"; CallClose; Tick; Loop; Loop; Loop; Loop]%string.

End Timeline.

(** ** Package solar *)

Module Solar.

(** What a call into the go-solr library can do: return a value, return
    an error, or panic. *)
Inductive ext (A : Type) :=
| Ok (a : A)
| Err (e : string)
| Panic (r : string).
Arguments Ok {A} a.
Arguments Err {A} e.
Arguments Panic {A} r.

(** [url.Values]: [map[string][]string], with its [Add]. *)
Definition Values_Add (key value : string) (v : gmap string (list string))
  : gmap string (list string) :=
  <[key := default [] (v !! key) ++ [value]]> v.

Definition cCommit : string := "commit".
Definition cTrue : string := "true".
Definition cEmpty : string := EmptyString.
Definition cQuery : string := "query".

(** A method either returns or is unwinding a panic. *)
Inductive result (A : Type) :=
| Returns (a : A)
| Panicking (r : string).
Arguments Returns {A} a.
Arguments Panicking {A} r.

(** A line of the contextual logger: [Error().Err(err).Msg(msg)]. *)
Record logLine := {
  logErr : option string;
  logMsg : string
}.

Section Service.

(** The types of the go-solr library: [*solr.SolrInterface],
    [solr.Document], the [Result] field of a response; and the state of
    everything outside the process (the Solr server, the network). *)
Context {SolrInterface Document Result World : Type}.

(** [solr.SolrUpdateResponse]. *)
Record SolrResponse := {
  Success : bool;
  Result_ : Result
}.

(** The library functions the service calls. *)
Context (NewSolrInterface : string -> string -> World -> ext SolrInterface * World).
Context (si_Add : SolrInterface -> list Document -> Z -> gmap string (list string) ->
                  World -> ext SolrResponse * World).
Context (si_Delete : SolrInterface -> gmap string string -> gmap string (list string) ->
                     World -> ext SolrResponse * World).
(** [fmt]'s rendering of a result with [%+v]. *)
Context (show_Result : Result -> string).
(** [logh.ErrorEnabled]. *)
Context (ErrorEnabled : bool).

(** A call that left the service for the library. *)
Inductive request :=
| ReqNewSolrInterface (url collection : string)
| ReqAdd (si : SolrInterface) (docs : list Document) (chunk : Z)
         (params : gmap string (list string))
| ReqDelete (si : SolrInterface) (doc : gmap string string)
            (params : gmap string (list string)).

(** The service ([sync.Map] as a finite map), the world it talks to, and
    the requests issued so far. *)
Record SolrService := {
  url : string;
  solrInterfaceCache : gmap string SolrInterface;
  loggers : list logLine;
  world : World;
  requests : list request
}.

Definition M (A : Type) : Type := SolrService -> result A * SolrService.

Definition ret {A} (a : A) : M A := fun ss => (Returns a, ss).

Definition bind {A B} (m : M A) (k : A -> M B) : M B :=
  fun ss =>
    match m ss with
    | (Returns a, ss') => k a ss'
    | (Panicking r, ss') => (Panicking r, ss')
    end.

Notation "'let*' x := m 'in' k" := (bind m (fun x => k))
  (at level 10, x name, m at level 100, k at level 200).
Notation "m ;;; k" := (bind m (fun _ => k))
  (at level 100, k at level 200, right associativity).

Definition logError (err : option string) (msg : string) : M unit :=
  fun ss =>
    (Returns tt,
     {| url := url ss; solrInterfaceCache := solrInterfaceCache ss;
        loggers := loggers ss ++ [{| logErr := err; logMsg := msg |}];
        world := world ss; requests := requests ss |}).

(** [if logh.ErrorEnabled { ss.loggers.Error()... }]. *)
Definition logIfEnabled (err : option string) (msg : string) : M unit :=
  if ErrorEnabled then logError err msg else ret tt.

(** A library call: it is recorded, it acts on the world, and a panic in
    it unwinds the caller. *)
Definition library {A} (rq : request) (f : World -> ext A * World)
  : M (A + string) :=
  fun ss =>
    let '(r, w) := f (world ss) in
    let ss' := {| url := url ss; solrInterfaceCache := solrInterfaceCache ss;
                  loggers := loggers ss; world := w;
                  requests := requests ss ++ [rq] |} in
    match r with
    | Ok a => (Returns (inl a), ss')
    | Err e => (Returns (inr e), ss')
    | Panic p => (Panicking p, ss')
    end.

Definition cache_Load (collection : string) : M (option SolrInterface) :=
  fun ss => (Returns (solrInterfaceCache ss !! collection), ss).

Definition cache_Store (collection : string) (si : SolrInterface) : M unit :=
  fun ss =>
    (Returns tt,
     {| url := url ss;
        solrInterfaceCache := <[collection := si]> (solrInterfaceCache ss);
        loggers := loggers ss; world := world ss; requests := requests ss |}).

Definition get_url : M string := fun ss => (Returns (url ss), ss).

(** [defer ss.recoverFromFailure()] around a body with an unnamed
    [error] result: a panic is recovered and logged, and the method then
    returns the zero value of its result, [nil]. *)
Definition recoverFromFailure (body : M (option string)) : M (option string) :=
  fun ss =>
    match body ss with
    | (Returns e, ss') => (Returns e, ss')
    | (Panicking r, ss') =>
        match logIfEnabled None (String.append "recovered from: " r) ss' with
        | (_, ss'') => (Returns None, ss'')
        end
    end.

(** [getSolrInterface]: the cached interface of the collection, or a new
    one, stored in the cache. [inr err] is [(nil, err)]. *)
Definition getSolrInterface (collection : string) : M (SolrInterface + string) :=
  let* cached := cache_Load collection in
  match cached with
  | Some si => ret (inl si)
  | None =>
      let* u := get_url in
      let* r := library (ReqNewSolrInterface u collection) (NewSolrInterface u collection) in
      match r with
      | inr err =>
          logIfEnabled (Some err) "error creating a new instance of solr interface" ;;;
          ret (inr err)
      | inl si =>
          cache_Store collection si ;;;
          ret (inl si)
      end
  end.

Definition commit_params (commit : bool) : gmap string (list string) :=
  if commit then Values_Add cCommit cTrue ∅ else ∅.

(** [AddDocument]; [doc = None] is the [nil] pointer. *)
Definition AddDocument (collection : string) (commit : bool)
    (doc : option Document) : M (option string) :=
  recoverFromFailure (
    match doc with
    | None => ret (Some "document is null")
    | Some d =>
        let* r := getSolrInterface collection in
        match r with
        | inr err =>
            logIfEnabled (Some err) "error getting solr interface" ;;;
            ret (Some err)
        | inl si =>
            let params := commit_params commit in
            let* r := library (ReqAdd si [d] 0 params) (si_Add si [d] 0 params) in
            match r with
            | inr err => ret (Some err)
            | inl _ => ret None
            end
        end
    end).

(** [AddDocuments]; [docs = None] is the [nil] slice, whose length is 0. *)
Definition AddDocuments (collection : string) (commit : bool)
    (docs : option (list Document)) : M (option string) :=
  recoverFromFailure (
    match docs with
    | None => ret (Some "no documents to add")
    | Some l =>
        if Nat.eqb (length l) 0 then ret (Some "no documents to add")
        else
          let* r := getSolrInterface collection in
          match r with
          | inr err =>
              logIfEnabled (Some err) "error getting solr interface" ;;;
              ret (Some err)
          | inl si =>
              let params := commit_params commit in
              let* r := library (ReqAdd si l 0 params) (si_Add si l 0 params) in
              match r with
              | inr err => ret (Some err)
              | inl _ => ret None
              end
          end
    end).

(** [DeleteDocumentByQuery]. *)
Definition DeleteDocumentByQuery (collection : string) (commit : bool)
    (query : string) : M (option string) :=
  recoverFromFailure (
    if String.eqb query cEmpty
    then ret (Some "query not informed, no document will be deleted")
    else
      let* r := getSolrInterface collection in
      match r with
      | inr err =>
          logIfEnabled (Some err) "error getting solr interface" ;;;
          ret (Some err)
      | inl si =>
          let params := commit_params commit in
          let doc : gmap string string := <[cQuery := query]> ∅ in
          let* r := library (ReqDelete si doc params) (si_Delete si doc params) in
          match r with
          | inr err => ret (Some err)
          | inl solrResponse =>
              if negb (Success solrResponse)
              then ret (Some (String.append "error deleting documents: "
                                (show_Result (Result_ solrResponse))))
              else ret None
          end
      end).

(** [DeleteDocumentByID]; [fmt.Sprintf("id:%s", id)] is a concatenation. *)
Definition DeleteDocumentByID (collection : string) (commit : bool)
    (id : string) : M (option string) :=
  recoverFromFailure (
    if String.eqb id cEmpty
    then ret (Some "document id not informed, no document will be deleted")
    else
      let query := String.append "id:" id in
      let* err := DeleteDocumentByQuery collection commit query in
      match err with
      | Some e => ret (Some e)
      | None => ret None
      end).

(** What a method called on [collection] may have done to the service:
    the url is the same, every cached interface is still cached, the
    cache entries of the other collections are untouched, and requests
    (at most two) and log lines have only been added. *)
Definition extends (collection : string) (ss ss' : SolrService) : Prop :=
  url ss' = url ss /\
  (forall c si, solrInterfaceCache ss !! c = Some si ->
                solrInterfaceCache ss' !! c = Some si) /\
  (forall c, c <> collection ->
             solrInterfaceCache ss' !! c = solrInterfaceCache ss !! c) /\
  (exists rs, requests ss' = requests ss ++ rs /\ (length rs <= 2)%nat) /\
  (exists ls, loggers ss' = loggers ss ++ ls).

(** The log lines of an error, when [logh.ErrorEnabled]. *)
Definition logged (lines : list logLine) : list logLine :=
  if ErrorEnabled then lines else [].

End Service.

Arguments SolrResponse : clear implicits.
Arguments request : clear implicits.
Arguments SolrService : clear implicits.

Section Constructor.

Context {SolrInterface Document World CollectionsAdmin : Type}.

(** [solr.NewCollectionsAdmin] of the library. *)
Context (NewCollectionsAdmin : string -> World -> ext CollectionsAdmin * World).

(** What [NewSolrService] returns a pointer to: the service as above,
    and the field [solrCollectionsAdmin], which no method of the file
    reads. *)
Record SolrServiceRef := {
  solrCollectionsAdmin : CollectionsAdmin;
  service : SolrService SolrInterface Document World
}.

(** [NewSolrService]: [Err e] is [(nil, err)]; there is no deferred
    recovery here, a panic of the library goes on to the caller. The new
    service has an empty cache and has issued no request. *)
Definition NewSolrService (u : string) (w : World) : ext SolrServiceRef * World :=
  match NewCollectionsAdmin u w with
  | (Ok sca, w') =>
      (Ok {| solrCollectionsAdmin := sca;
             service := {| url := u; solrInterfaceCache := ∅; loggers := [];
                           world := w'; requests := [] |} |}, w')
  | (Err e, w') => (Err e, w')
  | (Panic r, w') => (Panic r, w')
  end.

End Constructor.

Arguments SolrServiceRef : clear implicits.

End Solar.

(** ** Properties of package timeline *)

Module TimelineFacts.
Import Timeline.

(** *** [Validate] *)

Lemma Seconds_exact (d : Duration) :
  (Seconds d == inject_Z d / inject_Z 1000000000)%Q.
Proof.
  unfold Seconds.
  rewrite (Z.quot_rem' d Second) at 3.
  rewrite inject_Z_plus, inject_Z_mult. unfold Second. field.
Qed.

Lemma Seconds_sign (d : Duration) : Qle_bool (Seconds d) 0 = (d <=? 0).
Proof.
  apply eq_true_iff_eq. rewrite Qle_bool_iff, Z.leb_le, Seconds_exact.
  unfold Qle, Qdiv, Qmult, Qinv, inject_Z; simpl. lia.
Qed.

(** C8. [Validate] returns [nil] exactly when the four fields are
    positive, and an error as soon as one of them is not; it is a function
    of the configuration alone, no core and no [Start] take part. *)
Theorem Validate_nil_iff_all_positive (c : DefaultTransportConfiguration) :
  (Validate c = None <->
   0 < TransportBufferSize c /\ 0 < SerializerBufferSize c /\
   0 < BatchSendInterval c /\ 0 < RequestTimeout c) /\
  ((TransportBufferSize c <= 0 \/ SerializerBufferSize c <= 0 \/
    BatchSendInterval c <= 0 \/ RequestTimeout c <= 0) <->
   exists e, Validate c = Some e).
Proof.
  unfold Validate. rewrite !Seconds_sign.
  destruct (Z.leb_spec (TransportBufferSize c) 0);
    destruct (Z.leb_spec (SerializerBufferSize c) 0);
    destruct (Z.leb_spec (BatchSendInterval c) 0);
    destruct (Z.leb_spec (RequestTimeout c) 0);
    (split; split; intros Hyp;
     [ try discriminate Hyp; try lia; auto
     | try lia; try reflexivity
     | eauto; lia
     | try lia; destruct Hyp; discriminate ]).
Qed.

(** *** Executions of the core *)

Ltac break_match H :=
  repeat match type of H with
         | context [match ?x with _ => _ end] => destruct x eqn:?
         end.

(** All the ways in which [step a s = Next s'] can hold. *)
Ltac step_inv H :=
  match type of H with
  | step ?a ?s = Next ?s' =>
      destruct a; cbn [step] in H;
      unfold transferDataLoop, TransferData_returns, Close, send, timer_fires, run_goroutine in H;
      break_match H;
      try discriminate H; injection H as <-
  end.

Ltac fields :=
  cbn [loop pointChannel transfers goroutines dataTransferInProgress logger
       buf capacity closed goto log set_chan set_flag set_goroutines spawn
       record_transfer].

Section CoreFacts.

Context {Item : Type}.
Implicit Types (s : state Item) (a : action Item) (tr : list (action Item)).

Lemma run_app tr1 tr2 s :
  run (tr1 ++ tr2) s =
  match run tr1 s with Next s' => run tr2 s' | o => o end.
Proof.
  revert s. induction tr1 as [|a tr1 IH]; intros s; simpl.
  - reflexivity.
  - destruct (step a s); auto.
Qed.

Lemma run_snoc tr a s s' :
  run (tr ++ [a]) s = Next s' <->
  exists s1, run tr s = Next s1 /\ step a s1 = Next s'.
Proof.
  rewrite run_app. split.
  - destruct (run tr s) as [s1| |]; try discriminate. simpl.
    destruct (step a s1) eqn:E; try discriminate. intros [= <-]. eauto.
  - intros (s1 & -> & H). simpl. rewrite H. reflexivity.
Qed.

(** Induction along an execution, one more step at the end. *)
Lemma run_ind (P : list (action Item) -> state Item -> Prop) s0 :
  P [] s0 ->
  (forall tr s a s',
      run tr s0 = Next s -> P tr s -> step a s = Next s' -> P (tr ++ [a]) s') ->
  forall tr s, run tr s0 = Next s -> P tr s.
Proof.
  intros H0 Hstep tr. induction tr as [|a tr IH] using rev_ind; intros s H.
  - injection H as <-. exact H0.
  - apply run_snoc in H as (s1 & H1 & H2). eauto.
Qed.

Lemma in_cycle_snoc {A} (obs : action Item -> state Item -> state Item -> list A)
    tr a s0 acc s1 s' :
  run tr s0 = Next s1 -> step a s1 = Next s' ->
  in_cycle obs (tr ++ [a]) s0 acc =
  match a with Tick => [] | _ => in_cycle obs tr s0 acc ++ obs a s1 s' end.
Proof.
  revert s0 acc. induction tr as [|b tr IH]; intros s0 acc H1 H2; simpl in *.
  - injection H1 as ->. rewrite H2. reflexivity.
  - destruct (step b s0) as [s2| |]; try discriminate. eauto.
Qed.

Lemma sent_snoc tr a :
  sent (tr ++ [a]) = sent tr ++ match a with Send x => [x] | _ => [] end.
Proof.
  unfold sent. rewrite flat_map_app. simpl. rewrite app_nil_r. reflexivity.
Qed.

Lemma returns_snoc tr a :
  returns (tr ++ [a]) =
  (returns tr + match a with Return _ => 1 | _ => 0 end)%nat.
Proof.
  unfold returns. rewrite List.filter_app, length_app.
  destruct a; reflexivity.
Qed.

Lemma take_head (x : Item) (l : list Item) :
  take (length (x :: l) - length l) (x :: l) = [x].
Proof.
  replace (length (x :: l) - length l)%nat with 1%nat by (simpl; lia).
  reflexivity.
Qed.

Lemma take_none (l : list Item) : take (length l - length l) l = [].
Proof. rewrite Nat.sub_diag. reflexivity. Qed.

Lemma drop_same {A} (l : list A) : drop (length l) l = [].
Proof. apply drop_all. Qed.

Lemma drop_added {A} (l : list A) (x : A) : drop (length l) (l ++ [x]) = [x].
Proof. apply drop_app_length. Qed.

Lemma counted_nonempty (points : list Item) :
  (length points =? 0)%nat = false -> points <> [].
Proof. intros H ->. discriminate H. Qed.

(** The dequeues and the calls of the current cycle, at every control
    point of every execution. *)
Lemma cycle_inv_holds n tr s :
  run tr (init n) = Next s ->
  cycle_inv (loop s) (in_cycle dequeued tr (init n) [])
            (in_cycle called tr (init n) []).
Proof.
  revert tr s. apply run_ind.
  - simpl. auto.
  - intros tr s a s' Hrun IH Hstep.
    rewrite !(in_cycle_snoc _ _ _ _ _ _ _ Hrun Hstep).
    set (D := in_cycle dequeued tr (init n) []) in *.
    set (C := in_cycle called tr (init n) []) in *.
    clearbody D C. clear Hrun.
    revert IH. unfold dequeued, called.
    step_inv Hstep; fields; unfold cycle_inv;
      rewrite ?take_head, ?take_none, ?drop_same, ?drop_added, ?app_nil_r;
      try tauto;
      try (intros [-> ->]; auto using counted_nonempty);
      try (intros (-> & -> & ?); auto).
Qed.

(** Every item sent is accounted for, in the order of sending. *)
Lemma delivery_inv_holds n tr s :
  run tr (init n) = Next s -> delivery_inv tr s.
Proof.
  revert tr s. apply run_ind.
  - reflexivity.
  - intros tr s a s' _ IH Hstep.
    unfold delivery_inv in *. rewrite sent_snoc. revert IH.
    step_inv Hstep; fields; cbn [held]; rewrite ?app_nil_r; try tauto.
    + (* Send *)
      destruct (loop s); cbn [held];
        try (intros ->; rewrite <- ?app_assoc; reflexivity).
      * intros [-> ?]. rewrite <- app_assoc. auto.
      * intros (? & _ & _ & [=]).
    + (* Close *)
      destruct (loop s); cbn [held]; try tauto.
      intros (? & _ & _ & [=]).
    + (* the channel is closed and empty: the loop leaves *)
      intros ->. eauto.
    + (* the channel is empty *)
      intros ->. rewrite Heql, app_nil_r. reflexivity.
    + (* one more point *)
      intros ->. rewrite <- app_assoc. reflexivity.
    + (* no points *)
      destruct points; [auto | discriminate].
    + (* the call *)
      intros ->. rewrite concat_app. simpl. rewrite app_nil_r, <- app_assoc.
      eauto.
Qed.

(** The sender is called and returns in turn. *)
Lemma flight_inv_holds n tr s :
  run tr (init n) = Next s -> flight_inv tr s.
Proof.
  revert tr s. apply run_ind.
  - reflexivity.
  - intros tr s a s' _ IH Hstep.
    unfold flight_inv in *. rewrite returns_snoc. revert IH.
    step_inv Hstep; fields; rewrite ?length_app; simpl; lia.
Qed.

(** No empty batch is ever handed to the sender. *)
Lemma transfers_nonempty n tr s :
  run tr (init n) = Next s -> Forall (fun b => b <> []) (transfers s).
Proof.
  revert tr s. apply run_ind.
  - constructor.
  - intros tr s a s' _ IH Hstep. revert IH.
    step_inv Hstep; fields; auto.
    intros IH. apply Forall_app. split; [exact IH|].
    constructor; auto using counted_nonempty.
Qed.

(** Nothing but a spawned goroutine writes the flag. *)
Lemma flag_written_by_goroutines a s s' :
  step a s = Next s' ->
  dataTransferInProgress s' <> dataTransferInProgress s ->
  exists i v, a = Go i /\ goroutines s !! i = Some v /\
              dataTransferInProgress s' = v.
Proof.
  intros Hstep. step_inv Hstep; fields; try congruence. eauto.
Qed.

(** Once the loop has left, it stays out and calls nothing. *)
Lemma exited_forever tr s s' :
  loop s = Exited -> run tr s = Next s' ->
  loop s' = Exited /\ transfers s' = transfers s.
Proof.
  revert s. induction tr as [|a tr IH]; intros s Hs H; simpl in H.
  - injection H as <-. auto.
  - destruct (step a s) as [s1| |] eqn:Hstep; try discriminate.
    assert (loop s1 = Exited /\ transfers s1 = transfers s) as [H1 H2].
    { revert Hs. step_inv Hstep; fields; auto; congruence. }
    destruct (IH s1 H1 H) as [? ?]. split; congruence.
Qed.

(** Once the flag is set with nothing pending to clear it, every cycle is
    skipped: the flag stays set and the sender is never called. *)
Lemma flag_stuck_forever tr s s' :
  flag_stuck s -> run tr s = Next s' ->
  flag_stuck s' /\ transfers s' = transfers s.
Proof.
  revert s. induction tr as [|a tr IH]; intros s Hs H; simpl in H.
  - injection H as <-. auto.
  - destruct (step a s) as [s1| |] eqn:Hstep; try discriminate.
    assert (flag_stuck s1 /\ transfers s1 = transfers s) as [H1 H2].
    { revert Hs. unfold flag_stuck.
      step_inv Hstep; fields; intros (Hf & Hg & Hl);
        try (destruct Hl; congruence); try (split; [|reflexivity]); auto.
      - apply Z.ltb_ge in Heqb. lia.
      - repeat split; auto.
        + eapply Forall_lookup_1 in Hg; eauto.
        + apply Forall_delete. exact Hg. }
    destruct (IH s1 H1 H) as [? ?]. split; congruence.
Qed.


(** The log is written and never read. *)
Lemma step_ignores_logs a s1 s2 :
  forget_logs s1 = forget_logs s2 -> same_but_logs (step a s1) (step a s2).
Proof.
  destruct s1, s2; unfold forget_logs; cbn; intros [= -> -> -> -> ->].
  destruct a; cbn;
    unfold transferDataLoop, TransferData_returns, Close, send, timer_fires, run_goroutine; cbn;
    repeat match goal with
           | |- context [match ?x with _ => _ end] => destruct x
           end; cbn; auto.
Qed.

Lemma run_ignores_logs tr s1 s2 :
  forget_logs s1 = forget_logs s2 -> same_but_logs (run tr s1) (run tr s2).
Proof.
  revert s1 s2. induction tr as [|a tr IH]; intros s1 s2 H; simpl.
  - exact H.
  - pose proof (step_ignores_logs a s1 s2 H) as Hs.
    destruct (step a s1), (step a s2); simpl in Hs; try contradiction; auto.
    all: exact I.
Qed.

(** C1, as the code has it. With the one loop goroutine that [Start]
    spawns, at most one [TransferData] call is in flight after any
    execution, whatever the interleaving of sends, ticks, [Close] and
    goroutine scheduling, and one is in flight exactly while the loop is
    inside the call (calls started minus calls returned, and no call
    returns that was not started). The flag is not what ensures it: the check at line
    122 reads the flag and writes nothing, the statement at line 127 only
    spawns the goroutine that will store 1, and the flag changes only
    when a spawned goroutine runs. *)
Theorem one_transfer_in_flight n tr s :
  run tr (init n) = Next s ->
  (returns tr <= length (transfers s))%nat /\
  (in_flight tr s <= 1)%nat /\
  (in_flight tr s = 1%nat <-> exists points, loop s = AtTransfer points) /\
  (forall s', loop s = AtCheck -> step Loop s = Next s' ->
     dataTransferInProgress s' = dataTransferInProgress s /\
     goroutines s' = goroutines s) /\
  (forall s', loop s = AtSet -> step Loop s = Next s' ->
     dataTransferInProgress s' = dataTransferInProgress s /\
     goroutines s' = goroutines s ++ [1]) /\
  (forall a s', step a s = Next s' ->
     dataTransferInProgress s' <> dataTransferInProgress s ->
     exists i v, a = Go i /\ goroutines s !! i = Some v /\
                 dataTransferInProgress s' = v).
Proof.
  intros Hrun. pose proof (flight_inv_holds n tr s Hrun) as Hf.
  unfold flight_inv in Hf. unfold in_flight.
  split; [lia|].
  split; [destruct (loop s); lia|].
  split; [split|].
  - intros H. destruct (loop s); try lia. eauto.
  - intros [points Hp]. rewrite Hp in Hf. lia.
  - split; [|split].
    + intros s' Hl Hs. cbn [step] in Hs. unfold transferDataLoop in Hs.
      rewrite Hl in Hs.
      destruct (0 <? dataTransferInProgress s); injection Hs as <-; auto.
    + intros s' Hl Hs. cbn [step] in Hs. unfold transferDataLoop in Hs.
      rewrite Hl in Hs. injection Hs as <-; auto.
    + intros a s'. apply flag_written_by_goroutines.
Qed.

(** C5. In a cycle in which nothing was dequeued, [TransferData] was not
    called; and no batch in the history of the calls is empty. *)
Theorem empty_drain_makes_no_call n tr s :
  run tr (init n) = Next s ->
  (in_cycle dequeued tr (init n) [] = [] ->
   in_cycle called tr (init n) [] = []) /\
  Forall (fun b => b <> []) (transfers s).
Proof.
  intros Hrun. split; [|eapply transfers_nonempty; eauto].
  pose proof (cycle_inv_holds n tr s Hrun) as H. revert H.
  unfold cycle_inv. destruct (loop s); intros H HD; rewrite HD in H;
    intuition congruence.
Qed.

(** What the batches handed over after a state [s0] are made of: the
    points the loop held in [s0], the items that were on the channel in
    [s0] and the items sent since, in this order, and nothing else. *)
Lemma delivery_from s0 tr s :
  run tr s0 = Next s ->
  exists later,
    transfers s = transfers s0 ++ later /\
    match loop s with
    | Exited =>
        exists dropped,
          held (loop s0) ++ buf (pointChannel s0) ++ sent tr
          = concat later ++ dropped
    | p =>
        held (loop s0) ++ buf (pointChannel s0) ++ sent tr
        = concat later ++ held p ++ buf (pointChannel s)
    end.
Proof.
  revert tr s. apply run_ind.
  - exists []. rewrite !app_nil_r. split; [reflexivity|].
    destruct (loop s0); cbn [held concat app]; rewrite ?app_nil_r; eauto.
  - intros tr s a s' _ (later & Ht & Hm) Hstep. rewrite sent_snoc.
    revert Ht Hm.
    step_inv Hstep; fields; cbn [held]; rewrite ?app_nil_r; intros Ht Hm;
      try (exists later; split; [exact Ht|]; exact Hm).
    + (* Send *)
      exists later. split; [exact Ht|].
      destruct (loop s); cbn [held] in *;
        try (rewrite !app_assoc in *; rewrite Hm; reflexivity).
      destruct Hm as [dropped Hm]. exists (dropped ++ [x]).
      rewrite !app_assoc in *. rewrite Hm. reflexivity.
    + (* the channel is closed and empty: the loop leaves *)
      exists later. split; [exact Ht|]. exists points. exact Hm.
    + (* the channel is empty *)
      exists later. split; [exact Ht|]. rewrite Heql, app_nil_r. exact Hm.
    + (* one more point *)
      exists later. split; [exact Ht|]. rewrite <- app_assoc. exact Hm.
    + (* no points *)
      exists later. split; [exact Ht|].
      destruct points; [exact Hm | discriminate].
    + (* the call *)
      exists (later ++ [points]). split; [rewrite Ht, app_assoc; reflexivity|].
      rewrite Hm, concat_app. cbn [concat]. rewrite app_nil_r, <- app_assoc.
      reflexivity.
Qed.

(** C6. When [TransferData] returns an error, the error is logged and
    that is all: the channel, the history of the calls, the flag and the
    pending goroutines are as they were, the loop goes on to line 165 as
    after a success, and whatever happens next happens as it would after
    a success, the log apart. The loop does go on: its next statement
    spawns the clear and takes it back to the timer, and the next tick
    starts the next cycle at the check. The batch is gone: the batches
    handed over from then on are made of the items that were on the
    channel at the failure and of the items sent since, in this order,
    and of nothing else, so that the points of the failed batch are
    neither handed over again nor put back on the channel. *)
Theorem transfer_error_is_only_logged s points e :
  loop s = AtTransfer points ->
  exists s_err s_ok,
    step (Return (Some e)) s = Next s_err /\
    step (Return None) s = Next s_ok /\
    logger s_err = logger s ++ [MsgError e] /\
    pointChannel s_err = pointChannel s /\
    transfers s_err = transfers s /\
    dataTransferInProgress s_err = dataTransferInProgress s /\
    goroutines s_err = goroutines s /\
    loop s_err = AtClear /\ loop s_ok = AtClear /\
    (forall tr, same_but_logs (run tr s_err) (run tr s_ok)) /\
    (exists s_next,
       run [Loop; Tick] s_err = Next s_next /\
       loop s_next = AtCheck /\
       goroutines s_next = goroutines s ++ [0] /\
       dataTransferInProgress s_next = dataTransferInProgress s /\
       pointChannel s_next = pointChannel s /\
       transfers s_next = transfers s /\
       logger s_next = logger s ++ [MsgError e]) /\
    (forall tr s', run tr s_err = Next s' ->
       exists later,
         transfers s' = transfers s ++ later /\
         (loop s' <> Exited ->
          buf (pointChannel s) ++ sent tr
          = concat later ++ held (loop s') ++ buf (pointChannel s')) /\
         (loop s' = Exited ->
          exists dropped,
            buf (pointChannel s) ++ sent tr = concat later ++ dropped)).
Proof.
  intros H. cbn [step]. unfold TransferData_returns. rewrite H.
  do 2 eexists. do 9 (split; [reflexivity|]).
  split; [intros tr; apply run_ignores_logs; reflexivity|].
  split.
  - eexists. split; [reflexivity|]. cbn. auto 10.
  - intros tr s' Hrun.
    destruct (delivery_from _ tr s' Hrun) as (later & Ht & Hm).
    cbn in Ht, Hm. exists later. split; [exact Ht|].
    split.
    + intros Hne. destruct (loop s'); try exact Hm. congruence.
    + intros He. rewrite He in Hm. exact Hm.
Qed.

(** C7. While [TransferData] runs, its batch is the sequence of the items
    dequeued in this cycle, in the order of the dequeues, and it is the
    one call of the cycle; in the order of sending, the items sent so far
    are those of the earlier batches, then this batch, then the items
    still on the channel. *)
Theorem batch_is_the_dequeued_sequence n tr s points :
  run tr (init n) = Next s ->
  loop s = AtTransfer points ->
  points = in_cycle dequeued tr (init n) [] /\
  in_cycle called tr (init n) [] = [points] /\
  exists earlier,
    transfers s = earlier ++ [points] /\
    sent tr = concat earlier ++ points ++ buf (pointChannel s).
Proof.
  intros Hrun Hp.
  pose proof (cycle_inv_holds n tr s Hrun) as Hc.
  pose proof (delivery_inv_holds n tr s Hrun) as Hd.
  unfold delivery_inv in Hd. rewrite Hp in Hc, Hd. simpl in Hc.
  destruct Hc as (HD & HC & _). destruct Hd as (Hs & earlier & He).
  repeat split; auto.
  exists earlier. split; [exact He|].
  rewrite Hs, He, concat_app. simpl. rewrite app_nil_r, <- app_assoc.
  reflexivity.
Qed.

End CoreFacts.

(** *** Executions with items that are strings *)

(** C1, as it is stated, fails: after [Start], the first tick and the
    check at line 122, which finds the flag clear, the flag is still
    clear. The check did not set it: check and set are not one step. *)
Lemma check_and_set_are_two_steps :
  ~ (forall (Item : Type) (n : nat) (tr : list (action Item))
            (s s' : state Item),
        run tr (init n) = Next s ->
        (in_flight tr s <= 1)%nat /\
        (loop s = AtCheck -> dataTransferInProgress s = 0 ->
         step Loop s = Next s' -> dataTransferInProgress s' = 1)).
Proof.
  intros H.
  pose (s := goto AtCheck (log MsgInitializing (init (Item:=string) 1))).
  destruct (H string 1%nat [Loop; Tick] s (goto AtSet s) eq_refl) as [_ H1].
  specialize (H1 eq_refl eq_refl eq_refl). discriminate H1.
Qed.

Lemma one_transfer_in_flight_witness :
  let tr := [Loop; Send "A"%string; Tick; Loop; Loop; Loop; Loop; Loop] in
  exists s : state string,
    run tr (init 1) = Next s /\
    loop s = AtTransfer ["A"%string] /\
    in_flight tr s = 1%nat.
Proof.
  intros tr. eexists. split; [cbv; reflexivity|]. split; [reflexivity|].
  match goal with
  | |- in_flight _ ?s = _ =>
      destruct (one_transfer_in_flight 1 tr s eq_refl) as (_ & _ & [_ H] & _)
  end.
  apply H. eexists. reflexivity.
Defined.

(** C2, on the code. The first cycle finds the channel empty: it spawns
    the goroutine that sets the flag, the goroutine runs, the drain
    collects nothing and the loop goes back to the timer at line 153,
    past the clear of line 165. The flag is then set with nothing pending
    to clear it, and from there on, whatever is sent and however long the
    timer ticks, the flag stays set, every cycle is skipped and
    [TransferData] is never called. *)
Theorem flag_stays_set_after_an_empty_cycle :
  exists s : state string,
    run [Loop; Tick; Loop; Loop; Go 0; Loop; Loop] (init 1) = Next s /\
    loop s = AtTimer /\
    dataTransferInProgress s = 1 /\
    goroutines s = [] /\
    (exists s', run [Tick; Loop] s = Next s' /\
                logger s' = logger s ++ [MsgSkipping]) /\
    forall tr s', run tr s = Next s' ->
      0 < dataTransferInProgress s' /\ transfers s' = [].
Proof.
  eexists. split; [cbv; reflexivity|]. do 3 (split; [reflexivity|]). split.
  - eexists. split; [cbv; reflexivity | reflexivity].
  - intros tr s' H.
    eapply flag_stuck_forever in H as [(? & _) ?]; [split; eassumption|].
    unfold flag_stuck; cbn. repeat split; auto.
Qed.

(** The same happens in a cycle that does transfer a batch, when the
    scheduler runs the goroutine of line 165 before the one of line 127:
    the flag ends set, with nothing pending to clear it. *)
Lemma flag_stays_set_when_the_clear_runs_first :
  exists s : state string,
    run [Loop; Send "A"%string; Tick; Loop; Loop; Loop; Loop; Loop;
         Return None; Loop; Go 1; Go 0] (init 1) = Next s /\
    transfers s = [["A"%string]] /\
    flag_stuck s.
Proof.
  eexists. split; [cbv; reflexivity|]. split; [reflexivity|].
  unfold flag_stuck; cbn. repeat split; auto.
Qed.

(** C3, on the code. One item is sent, [Close] is called, the timer
    fires: the cycle dequeues the item, finds the channel closed and
    leaves the loop at line 139 without calling [TransferData]. The item
    is in no batch, and no later step puts it in one. *)
Theorem item_queued_at_close_is_in_no_batch :
  let tr := [Loop; Send "A"%string; CallClose; Tick; Loop; Loop; Loop; Loop] in
  exists s : state string,
    run tr (init 1) = Next s /\
    sent tr = ["A"%string] /\
    loop s = Exited /\
    buf (pointChannel s) = [] /\
    transfers s = [] /\
    forall tr' s', run tr' s = Next s' -> transfers s' = [].
Proof.
  intros tr. eexists. split; [cbv; reflexivity|]. do 4 (split; [reflexivity|]).
  intros tr' s' H. eapply exited_forever in H as [_ ?]; [eassumption|].
  reflexivity.
Qed.

(** C4, on the code. [Close] is called with two items queued and no
    transfer in progress. The next cycle is the final drain: it dequeues
    both items, calls nothing, and the loop leaves for good with the
    history of the calls empty. *)
Theorem final_drain_is_not_handed_to_the_sender :
  let tr := [Loop; Send "X"%string; Send "Y"%string; CallClose;
             Tick; Loop; Loop; Loop; Loop; Loop] in
  exists s : state string,
    run tr (init 2) = Next s /\
    in_cycle dequeued tr (init 2) [] = ["X"%string; "Y"%string] /\
    in_cycle called tr (init 2) [] = [] /\
    loop s = Exited /\
    transfers s = [] /\
    forall tr' s', run tr' s = Next s' ->
      loop s' = Exited /\ transfers s' = [].
Proof.
  intros tr. eexists. split; [cbv; reflexivity|]. do 4 (split; [reflexivity|]).
  intros tr' s' H. eapply exited_forever in H; [eassumption|]. reflexivity.
Qed.

Lemma empty_drain_makes_no_call_witness :
  let tr : list (action string) := [Loop; Tick; Loop; Loop; Loop; Loop] in
  exists s : state string,
    run tr (init 1) = Next s /\
    loop s = AtTimer /\
    in_cycle dequeued tr (init 1) [] = [] /\
    in_cycle called tr (init 1) [] = [].
Proof.
  intros tr. eexists. split; [cbv; reflexivity|].
  match goal with
  | |- loop ?s = _ /\ _ =>
      pose proof (empty_drain_makes_no_call 1 tr s eq_refl) as [H _]
  end.
  split; [reflexivity|]. split; [reflexivity | exact (H eq_refl)].
Defined.

Lemma transfer_error_is_only_logged_witness :
  let s : state string :=
    goto (AtTransfer ["A"%string]) (record_transfer ["A"%string] (init 1)) in
  loop s = AtTransfer ["A"%string] /\
  exists s_err s_ok,
    step (Return (Some "timeout"%string)) s = Next s_err /\
    step (Return None) s = Next s_ok /\
    pointChannel s_err = pointChannel s /\
    transfers s_err = transfers s /\
    (forall tr, same_but_logs (run tr s_err) (run tr s_ok)) /\
    exists s_next,
      run [Loop; Tick] s_err = Next s_next /\
      loop s_next = AtCheck /\
      goroutines s_next = [0].
Proof.
  intros s. split; [reflexivity|].
  destruct (transfer_error_is_only_logged s ["A"%string] "timeout"%string eq_refl)
    as (s_err & s_ok & H1 & H2 & _ & H3 & H4 & _ & _ & _ & _ & H5
        & (s_next & H6 & H7 & H8 & _) & _).
  exists s_err, s_ok. repeat (split; [assumption|]).
  exists s_next. auto.
Defined.

Lemma batch_is_the_dequeued_sequence_witness :
  let tr := [Loop; Send "A"%string; Send "B"%string; Tick;
             Loop; Loop; Loop; Loop; Loop; Send "C"%string; Loop] in
  exists s : state string,
    run tr (init 2) = Next s /\
    loop s = AtTransfer ["A"%string; "B"%string] /\
    in_cycle dequeued tr (init 2) [] = ["A"%string; "B"%string] /\
    buf (pointChannel s) = ["C"%string].
Proof.
  intros tr. eexists. split; [cbv; reflexivity|].
  match goal with
  | |- loop ?s = _ /\ _ =>
      pose proof (batch_is_the_dequeued_sequence 2 tr s _ eq_refl eq_refl)
        as (H & _ & _)
  end.
  split; [reflexivity|]. split; [symmetry; exact H | reflexivity].
Defined.

(** *** More on the executions of the core *)

Section CoreMore.

Context {Item : Type}.
Implicit Types (s : state Item) (a : action Item) (tr : list (action Item)).

(** X1. The batches handed to the sender, put end to end, are a prefix of
    the sequence of the sends: no item is handed over twice, and the
    batches follow the order of sending, within a batch and from one
    batch to the next. As long as the loop has not left, nothing is
    missing either: what is not in a batch yet is in the hands of the
    loop or on the channel, in that order. *)
Theorem batches_are_a_prefix_of_the_sends n tr s :
  run tr (init n) = Next s ->
  (exists rest, sent tr = concat (transfers s) ++ rest) /\
  (loop s <> Exited ->
   sent tr = concat (transfers s) ++ held (loop s) ++ buf (pointChannel s)).
Proof.
  intros Hrun. pose proof (delivery_inv_holds n tr s Hrun) as H.
  unfold delivery_inv in H.
  destruct (loop s); cbn [held] in *;
    try (split; [eexists; exact H | intros _; exact H]).
  - destruct H as [H _]. split; [eauto | intros _; exact H].
  - destruct H as (dropped & H & _). split; [eauto | congruence].
Qed.

(** The channel keeps the capacity it was made with and never holds more
    items than that. *)
Lemma channel_never_exceeds_its_capacity n tr s :
  run tr (init n) = Next s ->
  capacity (pointChannel s) = n /\
  (length (buf (pointChannel s)) <= n)%nat.
Proof.
  revert tr s. apply run_ind.
  - cbn. split; [reflexivity | lia].
  - intros tr s a s' _ IH Hstep. revert IH.
    step_inv Hstep; fields; try tauto;
      repeat match goal with
             | H : buf _ = _ |- _ => rewrite H; clear H
             | H : (_ <? _)%nat = true |- _ => apply Nat.ltb_lt in H
             end;
      rewrite ?length_app; simpl; intros [Hcap Hlen];
      (split; [assumption | lia]).
Qed.

(** X3. The flag only ever holds 0 or 1, and so does every value that a
    pending goroutine is about to store: the [uint32] never wraps. *)
Theorem flag_is_zero_or_one n tr s :
  run tr (init n) = Next s ->
  (dataTransferInProgress s = 0 \/ dataTransferInProgress s = 1) /\
  Forall (fun v => v = 0 \/ v = 1) (goroutines s).
Proof.
  revert tr s. apply run_ind.
  - cbn. auto.
  - intros tr s a s' _ IH Hstep. revert IH.
    step_inv Hstep; fields; try tauto.
    + intros [? ?]. split; [assumption|]. apply Forall_app. auto.
    + intros [? ?]. split; [assumption|]. apply Forall_app. auto.
    + intros [_ Hg]. split.
      * eapply Forall_lookup_1 in Hg; eauto.
      * apply Forall_delete. exact Hg.
Qed.

Lemma closed_stays_closed a s s' :
  closed (pointChannel s) = true -> step a s = Next s' ->
  closed (pointChannel s') = true /\ on_channel a = false.
Proof.
  intros Hc Hstep. revert Hc. step_inv Hstep; fields; cbn; auto; congruence.
Qed.

Lemma closed_for_good tr s s' :
  closed (pointChannel s) = true -> run tr s = Next s' ->
  closed (pointChannel s') = true /\ Forall (fun a => on_channel a = false) tr.
Proof.
  revert s. induction tr as [|a tr IH]; intros s Hc H; simpl in H.
  - injection H as <-. auto.
  - destruct (step a s) as [s1| |] eqn:Hstep; try discriminate.
    destruct (closed_stays_closed a s s1 Hc Hstep) as [Hc1 Ha].
    destruct (IH s1 Hc1 H) as [? ?]. auto.
Qed.

(** X4. Once [Close] has been called the channel stays closed, and every
    later send and every later [Close] panics, the latter with its line
    in the log: no execution goes on past one. This holds from any state
    of the core. *)
Theorem nothing_is_sent_after_Close tr1 tr2 s0 s :
  run (tr1 ++ CallClose :: tr2) s0 = Next s ->
  closed (pointChannel s) = true /\
  Forall (fun a => on_channel a = false) tr2 /\
  (forall x, step (Send x) s = Panics s) /\
  step CallClose s = Panics (log MsgClosing s).
Proof.
  rewrite run_app. destruct (run tr1 s0) as [s1| |]; try discriminate.
  simpl. destruct (Close s1) as [s2| |] eqn:HC; try discriminate.
  intros H.
  assert (closed (pointChannel s2) = true) as Hc2.
  { unfold Close in HC. destruct (closed (pointChannel s1)); [discriminate|].
    injection HC as <-. reflexivity. }
  destruct (closed_for_good tr2 s2 s Hc2 H) as [Hc Hf].
  repeat split; auto.
  - intros x. cbn. unfold send. rewrite Hc. reflexivity.
  - cbn. unfold Close. rewrite Hc. reflexivity.
Qed.

Lemma closed_by_Close n tr s :
  run tr (init n) = Next s ->
  closed (pointChannel s) = true -> In CallClose tr.
Proof.
  revert tr s.
  apply (run_ind (fun tr s => closed (pointChannel s) = true -> In CallClose tr)).
  - cbn. discriminate.
  - intros tr s a s' _ IH Hstep. rewrite in_app_iff. revert IH.
    step_inv Hstep; fields; cbn; auto; try congruence.
Qed.

(** X5. The loop leaves only when [Close] was called, and it leaves a
    channel that is closed and empty. *)
Theorem loop_exits_only_after_Close n tr s :
  run tr (init n) = Next s ->
  loop s = Exited ->
  In CallClose tr /\
  closed (pointChannel s) = true /\
  buf (pointChannel s) = [].
Proof.
  intros Hrun He. pose proof (delivery_inv_holds n tr s Hrun) as H.
  unfold delivery_inv in H. rewrite He in H.
  destruct H as (_ & _ & Hb & Hc). repeat split; auto.
  eapply closed_by_Close; eauto.
Qed.

Lemma exited_only_schedules a s s' :
  loop s = Exited -> closed (pointChannel s) = true -> step a s = Next s' ->
  is_Go a = true /\ loop s' = Exited /\ pointChannel s' = pointChannel s /\
  transfers s' = transfers s /\ logger s' = logger s.
Proof.
  intros He Hc Hstep. revert He Hc.
  step_inv Hstep; fields; cbn; try congruence. auto.
Qed.

Lemma panics_on_a_closed_channel a s s' :
  step a s = Panics s' ->
  closed (pointChannel s) = true /\
  ((exists x, a = Send x /\ s' = s) \/
   (a = CallClose /\ s' = log MsgClosing s)).
Proof.
  destruct a; cbn [step];
    unfold transferDataLoop, TransferData_returns, Close, send, timer_fires,
      run_goroutine;
    intros H; break_match H; try discriminate H; injection H as <-;
    split; eauto.
Qed.

Lemma blocked_on_a_closed_channel a s :
  closed (pointChannel s) = true -> step a s = Blocked -> on_channel a = false.
Proof.
  intros Hc. destruct a; cbn [step on_channel]; auto;
    unfold Close, send; rewrite Hc; discriminate.
Qed.

(** X6. After the loop has left, all that can still happen without a
    panic is that pending goroutines run: the timer, the loop and the
    sender are out, and the channel, the history of the calls and the
    log stay as they are. A send panics; [Close] logs its line and then
    panics. In no case does the channel or the history of the calls
    change, and the log changes by that one line of [Close] only. *)
Theorem after_the_exit_only_goroutines_run n tr s tr' :
  run tr (init n) = Next s ->
  loop s = Exited ->
  match run tr' s with
  | Next s' =>
      Forall (fun a => is_Go a = true) tr' /\
      loop s' = Exited /\ pointChannel s' = pointChannel s /\
      transfers s' = transfers s /\ logger s' = logger s
  | Panics s' =>
      loop s' = Exited /\ pointChannel s' = pointChannel s /\
      transfers s' = transfers s /\
      exists sched rest,
        Forall (fun a => is_Go a = true) sched /\
        ((exists x, tr' = sched ++ Send x :: rest /\ logger s' = logger s) \/
         (tr' = sched ++ CallClose :: rest /\
          logger s' = logger s ++ [MsgClosing]))
  | Blocked =>
      exists sched a rest,
        tr' = sched ++ a :: rest /\
        Forall (fun a => is_Go a = true) sched /\
        on_channel a = false
  end.
Proof.
  intros Hrun He.
  assert (closed (pointChannel s) = true) as Hc.
  { pose proof (delivery_inv_holds n tr s Hrun) as H.
    unfold delivery_inv in H. rewrite He in H.
    destruct H as (_ & _ & _ & H). exact H. }
  clear Hrun. revert s He Hc.
  induction tr' as [|a tr' IH]; intros s He Hc; simpl.
  - auto.
  - destruct (step a s) as [s1| |s1] eqn:Hstep.
    + destruct (exited_only_schedules a s s1 He Hc Hstep)
        as (Ha & He1 & Hp & Ht & Hl).
      assert (closed (pointChannel s1) = true) as Hc1 by congruence.
      specialize (IH s1 He1 Hc1).
      destruct (run tr' s1) as [s'| |s'].
      * destruct IH as (? & ? & ? & ? & ?). repeat split; auto; congruence.
      * destruct IH as (sched & b & rest & -> & Hf & Hb).
        exists (a :: sched), b, rest. auto.
      * destruct IH as (? & ? & ? & sched & rest & Hf & Hcase).
        repeat split; try congruence.
        exists (a :: sched), rest. split; [auto|].
        destruct Hcase as [(x & -> & Hx) | [-> Hx]];
          [left; exists x | right]; split; auto; congruence.
    + exists [], a, tr'. repeat split; auto.
      eapply blocked_on_a_closed_channel; eauto.
    + destruct (panics_on_a_closed_channel a s s1 Hstep)
        as [_ [(x & -> & ->) | [-> ->]]]; fields.
      * repeat split; auto. exists [], tr'. split; [constructor|].
        left. exists x. auto.
      * repeat split; auto. exists [], tr'. split; [constructor|].
        right. auto.
Qed.

Lemma stuck_keeps_the_queue tr s s' :
  flag_stuck s -> run tr s = Next s' ->
  exists more, buf (pointChannel s') = buf (pointChannel s) ++ more.
Proof.
  revert s. induction tr as [|a tr IH]; intros s Hs H; simpl in H.
  - injection H as <-. exists []. rewrite app_nil_r. reflexivity.
  - destruct (step a s) as [s1| |] eqn:Hstep; try discriminate.
    assert (flag_stuck s1) as Hs1.
    { apply (flag_stuck_forever [a] s s1 Hs). simpl. rewrite Hstep. reflexivity. }
    destruct (IH s1 Hs1 H) as [more Hm].
    assert (exists one, buf (pointChannel s1) = buf (pointChannel s) ++ one)
      as [one Ho].
    { destruct Hs as (_ & _ & Hl). revert Hl.
      step_inv Hstep; fields; intros Hl;
        try (destruct Hl; congruence);
        try (exists []; rewrite app_nil_r; reflexivity).
      eexists. reflexivity. }
    exists (one ++ more). rewrite Hm, Ho, app_assoc. reflexivity.
Qed.

(** X7. Once the flag is set with no pending goroutine that would clear it,
    the core is dead, from any state and whatever happens: the flag stays
    set, the loop only ever waits and skips, so that it never receives
    from the channel, never calls [TransferData] and never leaves, not
    even after [Close]; sends only pile up on the channel. *)
Theorem stuck_flag_stops_the_core tr s s' :
  flag_stuck s -> run tr s = Next s' ->
  flag_stuck s' /\
  transfers s' = transfers s /\
  exists more, buf (pointChannel s') = buf (pointChannel s) ++ more.
Proof.
  intros Hs H. destruct (flag_stuck_forever tr s s' Hs H) as [? ?].
  split; [assumption|]. split; [assumption|].
  eapply stuck_keeps_the_queue; eauto.
Qed.

Lemma length_returned tr : length (returned tr) = returns tr.
Proof.
  unfold returned, returns. induction tr as [|a tr IH]; simpl; [reflexivity|].
  destruct a; simpl; auto.
Qed.

Lemma zip_with_longer {A B C} (f : A -> B -> C) (l l' : list A) (k : list B) :
  (length k <= length l)%nat -> zip_with f (l ++ l') k = zip_with f l k.
Proof.
  revert k. induction l as [|x l IH]; intros [|y k] H; simpl in *;
    try reflexivity; try lia.
  - destruct l'; reflexivity.
  - f_equal. apply IH. lia.
Qed.

(** X8. The log tells the transfers as they were: the sizes announced before
    the calls are the sizes of the batches handed to the sender, in
    order, and what is logged after the calls is, call by call, the error
    that the sender returned or else the size of the batch. *)
Theorem log_reports_every_transfer n tr s :
  run tr (init n) = Next s ->
  announced (logger s) = map length (transfers s) /\
  reported (logger s) = zip_with report_of (transfers s) (returned tr).
Proof.
  revert tr s. apply run_ind.
  - cbn. auto.
  - intros tr s a s' Hrun IH Hstep.
    pose proof (flight_inv_holds n tr s Hrun) as Hf.
    pose proof (delivery_inv_holds n tr s Hrun) as Hd.
    unfold flight_inv in Hf. unfold delivery_inv in Hd.
    rewrite <- length_returned in Hf.
    unfold returned in *. rewrite flat_map_app.
    revert IH Hf Hd. unfold announced, reported.
    step_inv Hstep; fields; rewrite ?flat_map_app; simpl;
      rewrite ?app_nil_r; try tauto.
    + (* the call *)
      intros [-> ->] Hf _. rewrite map_app. split; [reflexivity|].
      symmetry. apply zip_with_longer. lia.
    + (* the sender returns an error *)
      intros [H1 H2] Hf (_ & earlier & He). split; [exact H1|].
      rewrite H2, He. rewrite He, length_app in Hf. simpl in Hf.
      rewrite zip_with_longer by lia.
      rewrite zip_with_app by lia. reflexivity.
    + (* the sender returns nil *)
      intros [H1 H2] Hf (_ & earlier & He). split; [exact H1|].
      rewrite H2, He. rewrite He, length_app in Hf. simpl in Hf.
      rewrite zip_with_longer by lia.
      rewrite zip_with_app by lia. reflexivity.
Qed.

Lemma run_Loops_snoc k s :
  run (repeat Loop (S k)) s =
  match run (repeat Loop k) s with Next s' => step Loop s' | o => o end.
Proof.
  change (repeat Loop (S k)) with (@Loop Item :: repeat Loop k).
  rewrite repeat_cons, run_app. destruct (run (repeat Loop k) s); auto.
  simpl. destruct (transferDataLoop s0); reflexivity.
Qed.

(** The receives of a drain that nobody disturbs: as many as there are
    items on the channel, which end with all of them after the points
    already held, in order. *)
Lemma quiet_receives q : forall s points,
  loop s = AtDrain points -> buf (pointChannel s) = q ->
  run (repeat Loop (length q)) s =
  Next (goto (AtDrain (points ++ q))
          (set_chan {| buf := []; capacity := capacity (pointChannel s);
                       closed := closed (pointChannel s) |} s)).
Proof.
  induction q as [|x q IH]; intros s points Hl Hb.
  - destruct s as [[b c cl] f l g p t]; simpl in *. subst.
    rewrite app_nil_r. reflexivity.
  - simpl. unfold transferDataLoop. rewrite Hl, Hb.
    rewrite (IH _ (points ++ [x])) by reflexivity.
    unfold goto, set_chan; simpl. rewrite <- app_assoc. reflexivity.
Qed.

(** X9. A drain that nobody disturbs, on an open channel: after one receive
    per queued item and one empty select, the loop holds the points it
    had followed by the whole queue, in order, and the channel is empty;
    no call is made and nothing is logged meanwhile. *)
Theorem quiet_drain_collects_the_queue s points :
  loop s = AtDrain points ->
  closed (pointChannel s) = false ->
  exists s',
    run (repeat Loop (S (length (buf (pointChannel s))))) s = Next s' /\
    loop s' = AtCount (points ++ buf (pointChannel s)) /\
    buf (pointChannel s') = [] /\
    closed (pointChannel s') = false /\
    transfers s' = transfers s /\
    logger s' = logger s.
Proof.
  intros Hl Hc. rewrite run_Loops_snoc.
  rewrite (quiet_receives _ s points Hl eq_refl).
  cbn. unfold transferDataLoop. cbn. rewrite Hc.
  eexists. split; [reflexivity|]. cbn. auto.
Qed.

(** X10. The same drain on a closed channel, the final drain: the loop takes
    every queued item off the channel, then leaves at line 139. The
    items it took are in no batch: the history of the calls is as it
    was, and stays so for ever. *)
Theorem quiet_final_drain_drops_the_queue s points :
  loop s = AtDrain points ->
  closed (pointChannel s) = true ->
  exists s',
    run (repeat Loop (S (length (buf (pointChannel s))))) s = Next s' /\
    loop s' = Exited /\
    buf (pointChannel s') = [] /\
    logger s' = logger s ++ [MsgBreaking] /\
    forall tr s'', run tr s' = Next s'' -> transfers s'' = transfers s.
Proof.
  intros Hl Hc. rewrite run_Loops_snoc.
  rewrite (quiet_receives _ s points Hl eq_refl).
  cbn. unfold transferDataLoop. cbn. rewrite Hc.
  eexists. split; [reflexivity|]. cbn. do 3 (split; [reflexivity|]).
  intros tr s'' H. eapply exited_forever in H as [_ H]; [exact H | reflexivity].
Qed.

Lemma quiet_cycle_opening (b : list Item) c l t :
  run [Tick; Loop; Loop; Go 0]
    {| pointChannel := {| buf := b; capacity := c; closed := false |};
       dataTransferInProgress := 0; logger := l; goroutines := [];
       loop := AtTimer; transfers := t |}
  = Next {| pointChannel := {| buf := b; capacity := c; closed := false |};
            dataTransferInProgress := 1; logger := l; goroutines := [];
            loop := AtDrain []; transfers := t |}.
Proof. reflexivity. Qed.

Lemma quiet_cycle_closing (x : Item) (b : list Item) c l t err :
  run [Loop; Loop; Return err; Loop; Go 0]
    {| pointChannel := {| buf := []; capacity := c; closed := false |};
       dataTransferInProgress := 1; logger := l; goroutines := [];
       loop := AtDrain (x :: b); transfers := t |}
  = Next {| pointChannel := {| buf := []; capacity := c; closed := false |};
            dataTransferInProgress := 0;
            logger := (l ++ [MsgSending (length (x :: b))]) ++
                      [match err with
                       | Some e => MsgError e
                       | None => MsgSent (length (x :: b))
                       end];
            goroutines := [];
            loop := AtTimer; transfers := t ++ [x :: b] |}.
Proof. reflexivity. Qed.

(** X11. A whole cycle that nobody disturbs, from an idle core with a queue
    that is not empty: the whole queue is handed to the sender as one
    batch, in order, and whether the sender fails or not the core is idle
    again, the flag clear and the channel empty. *)
Theorem quiet_cycle_delivers_the_queue s err :
  idle s ->
  buf (pointChannel s) <> [] ->
  exists s',
    run (quiet_cycle (length (buf (pointChannel s))) err) s = Next s' /\
    idle s' /\
    buf (pointChannel s') = [] /\
    transfers s' = transfers s ++ [buf (pointChannel s)] /\
    announced (logger s') =
      announced (logger s) ++ [length (buf (pointChannel s))] /\
    reported (logger s') =
      reported (logger s) ++ [report_of (buf (pointChannel s)) err].
Proof.
  destruct s as [[b c cl] f l g p t]. unfold idle. fields.
  intros (-> & -> & -> & ->) Hb.
  destruct b as [|x b]; [congruence|].
  unfold quiet_cycle. rewrite run_app, quiet_cycle_opening.
  change (repeat Loop (S (length (x :: b))))
    with (@Loop Item :: repeat Loop (length (x :: b))).
  rewrite repeat_cons, <- app_assoc, run_app.
  rewrite (quiet_receives (x :: b) _ []) by reflexivity.
  change ([Loop] ++ [Loop; Return err; Loop; Go 0%nat])
    with [@Loop Item; Loop; Return err; Loop; Go 0%nat].
  unfold goto, set_chan. fields. rewrite app_nil_l, quiet_cycle_closing.
  eexists. split; [reflexivity|]. fields.
  unfold announced, reported. rewrite !flat_map_app. cbn [flat_map app].
  unfold idle. fields.
  destruct err; cbn [flat_map app report_of]; rewrite ?app_nil_r; auto 10.
Qed.

(** X12. The same cycle when the queue is empty: nothing is handed over, and
    the flag is left set with nothing pending to clear it. *)
Theorem quiet_empty_cycle_sticks_the_flag s :
  idle s ->
  buf (pointChannel s) = [] ->
  exists s',
    run [Tick; Loop; Loop; Go 0; Loop; Loop] s = Next s' /\
    flag_stuck s' /\
    transfers s' = transfers s /\
    logger s' = logger s ++ [MsgEmpty].
Proof.
  destruct s as [[b c cl] f l g p t]. unfold idle. cbn.
  intros (-> & -> & -> & ->) ->.
  eexists. split; [reflexivity|]. unfold flag_stuck. cbn.
  repeat split; auto.
Qed.

(** X2. A cycle calls [TransferData] at most once, and when it has called it,
    the batch is all that the cycle has dequeued: nothing is received
    from the channel between the call and the next tick. *)
Theorem at_most_one_call_per_cycle n tr s :
  run tr (init n) = Next s ->
  in_cycle called tr (init n) [] = [] \/
  in_cycle called tr (init n) [] = [in_cycle dequeued tr (init n) []].
Proof.
  intros Hrun. pose proof (cycle_inv_holds n tr s Hrun) as H.
  unfold cycle_inv in H. destruct (loop s); intuition (subst; auto).
Qed.

(** X13. The log is written and never read: two cores that differ in their
    logs only go through the same steps, block and panic on the same
    actions, and differ in their logs only afterwards. *)
Theorem logging_changes_nothing tr s1 s2 :
  forget_logs s1 = forget_logs s2 ->
  same_but_logs (run tr s1) (run tr s2).
Proof.
  revert s1 s2. induction tr as [|a tr IH]; intros s1 s2 H; simpl.
  - exact H.
  - pose proof (step_ignores_logs a s1 s2 H) as Hs.
    destruct (step a s1), (step a s2); simpl in Hs; try contradiction; auto.
    all: exact I.
Qed.

End CoreMore.

(** X14. [Validate] checks the buffer size, the serializer buffer size, the
    batch send interval and the request timeout in this order, and its
    error is about the first of them that is not positive and carries
    the value of that field. *)
Theorem Validate_reports_the_first_invalid_field
    (c : DefaultTransportConfiguration) :
  (forall k, Validate c = Some (InvalidBufferSize k) <->
     k = TransportBufferSize c /\ k <= 0) /\
  (forall k, Validate c = Some (InvalidSerializerBufferSize k) <->
     k = SerializerBufferSize c /\ k <= 0 /\ 0 < TransportBufferSize c) /\
  (forall d, Validate c = Some (InvalidBatchSendInterval d) <->
     d = BatchSendInterval c /\ d <= 0 /\
     0 < TransportBufferSize c /\ 0 < SerializerBufferSize c) /\
  (forall d, Validate c = Some (InvalidRequestTimeout d) <->
     d = RequestTimeout c /\ d <= 0 /\
     0 < TransportBufferSize c /\ 0 < SerializerBufferSize c /\
     0 < BatchSendInterval c).
Proof.
  unfold Validate. rewrite !Seconds_sign.
  destruct (Z.leb_spec (TransportBufferSize c) 0);
    destruct (Z.leb_spec (SerializerBufferSize c) 0);
    destruct (Z.leb_spec (BatchSendInterval c) 0);
    destruct (Z.leb_spec (RequestTimeout c) 0);
    (split; [|split; [|split]]); intros k;
    (split;
     [ intros Hv; try discriminate Hv; injection Hv as <-; repeat split; lia
     | intros Hk; decompose [and] Hk; subst; try reflexivity; lia ]).
Qed.

Lemma batches_are_a_prefix_of_the_sends_witness :
  exists s : state string,
    run a_delivery (init 2) = Next s /\
    sent a_delivery = concat (transfers s) ++ ["C"%string] /\
    transfers s = [["A"%string; "B"%string]].
Proof.
  eexists. split; [cbv; reflexivity|].
  match goal with
  | |- _ /\ transfers ?s = _ =>
      pose proof (batches_are_a_prefix_of_the_sends 2 a_delivery s eq_refl)
        as [_ H]
  end.
  split; [|reflexivity]. apply H. discriminate.
Defined.

Lemma flag_is_zero_or_one_witness :
  exists s : state string,
    run a_delivery (init 2) = Next s /\
    (dataTransferInProgress s = 0 \/ dataTransferInProgress s = 1).
Proof.
  eexists. split; [cbv; reflexivity|].
  match goal with
  | |- dataTransferInProgress ?s = _ \/ _ =>
      exact (proj1 (flag_is_zero_or_one 2 a_delivery s eq_refl))
  end.
Defined.

Lemma nothing_is_sent_after_Close_witness :
  let tr1 : list (action string) := [Loop; Send "A"%string] in
  let tr2 : list (action string) := [Tick; Loop; Loop; Loop; Loop] in
  exists s : state string,
    run (tr1 ++ CallClose :: tr2) (init 2) = Next s /\
    closed (pointChannel s) = true /\
    step (Send "B"%string) s = Panics s /\
    step CallClose s = Panics (log MsgClosing s).
Proof.
  intros tr1 tr2. eexists. split; [cbv; reflexivity|].
  match goal with
  | |- closed (pointChannel ?s) = _ /\ _ =>
      pose proof (nothing_is_sent_after_Close tr1 tr2 (init 2) s eq_refl)
        as (H1 & _ & H2 & H3)
  end.
  auto.
Defined.

Lemma loop_exits_only_after_Close_witness :
  exists s : state string,
    run a_shutdown (init 2) = Next s /\
    loop s = Exited /\
    In CallClose a_shutdown /\
    closed (pointChannel s) = true /\
    buf (pointChannel s) = [].
Proof.
  eexists. split; [cbv; reflexivity|]. split; [reflexivity|].
  match goal with
  | |- _ /\ closed (pointChannel ?s) = _ /\ _ =>
      exact (loop_exits_only_after_Close 2 a_shutdown s eq_refl eq_refl)
  end.
Defined.

Lemma after_the_exit_only_goroutines_run_witness :
  exists s : state string,
    run a_shutdown (init 2) = Next s /\
    loop s = Exited /\
    (exists s', run [Go 0] s = Next s' /\ logger s' = logger s) /\
    match run [Go 0; CallClose] s with
    | Panics s' =>
        loop s' = Exited /\ pointChannel s' = pointChannel s /\
        transfers s' = transfers s /\
        logger s' = logger s ++ [MsgClosing]
    | _ => False
    end.
Proof.
  eexists. split; [cbv; reflexivity|]. split; [reflexivity|].
  match goal with
  | |- (exists s', run _ ?s = _ /\ _) /\ _ =>
      pose proof (after_the_exit_only_goroutines_run 2 a_shutdown s [Go 0]
                    eq_refl eq_refl) as H1;
      pose proof (after_the_exit_only_goroutines_run 2 a_shutdown s
                    [Go 0; CallClose] eq_refl eq_refl) as H2
  end.
  split.
  - eexists. split; [cbv; reflexivity|]. apply H1.
  - cbv in H2 |- *. destruct H2 as (? & ? & ? & _). auto.
Defined.

Lemma stuck_flag_stops_the_core_witness :
  let tr : list (action string) :=
    [Send "A"%string; Tick; Loop; CallClose; Tick; Loop] in
  exists s s' : state string,
    run [Loop; Tick; Loop; Loop; Go 0; Loop; Loop] (init 2) = Next s /\
    flag_stuck s /\
    run tr s = Next s' /\
    flag_stuck s' /\
    transfers s' = transfers s /\
    closed (pointChannel s') = true /\
    buf (pointChannel s') = ["A"%string].
Proof.
  intros tr. do 2 eexists. split; [cbv; reflexivity|].
  match goal with
  | |- flag_stuck ?s /\ _ =>
      assert (flag_stuck s) as Hs
        by (unfold flag_stuck; cbn; repeat split; auto)
  end.
  split; [exact Hs|]. split; [cbv; reflexivity|].
  match goal with
  | |- flag_stuck ?s' /\ transfers _ = transfers ?s /\ _ =>
      pose proof (stuck_flag_stops_the_core tr s s' Hs eq_refl) as (H1 & H2 & _)
  end.
  repeat split; solve [apply H1 | exact H2 | reflexivity].
Defined.

Lemma log_reports_every_transfer_witness :
  exists s : state string,
    run a_delivery (init 2) = Next s /\
    announced (logger s) = [2%nat] /\
    reported (logger s) = [inl 2%nat].
Proof.
  eexists. split; [cbv; reflexivity|].
  match goal with
  | |- announced (logger ?s) = _ /\ _ =>
      exact (log_reports_every_transfer 2 a_delivery s eq_refl)
  end.
Defined.

Lemma at_most_one_call_per_cycle_witness :
  exists s : state string,
    run a_delivery (init 2) = Next s /\
    loop s = AtTimer /\
    in_cycle dequeued a_delivery (init 2) [] = ["A"; "B"]%string /\
    (in_cycle called a_delivery (init 2) [] = [] \/
     in_cycle called a_delivery (init 2) [] =
       [in_cycle dequeued a_delivery (init 2) []]).
Proof.
  eexists. split; [cbv; reflexivity|].
  match goal with
  | |- loop ?s = _ /\ _ =>
      pose proof (at_most_one_call_per_cycle 2 a_delivery s eq_refl) as H
  end.
  split; [reflexivity|]. split; [reflexivity | exact H].
Defined.

Lemma logging_changes_nothing_witness :
  let s1 : state string := init 2 in
  let s2 : state string := log MsgClosing (init 2) in
  forget_logs s1 = forget_logs s2 /\
  same_but_logs (run a_delivery s1) (run a_delivery s2).
Proof.
  intros s1 s2. split; [reflexivity|].
  exact (logging_changes_nothing a_delivery s1 s2 eq_refl).
Defined.

Lemma quiet_drain_collects_the_queue_witness :
  exists s : state string,
    run [Loop; Send "A"; Send "B"; Tick; Loop; Loop]%string (init 2) = Next s /\
    loop s = AtDrain [] /\
    closed (pointChannel s) = false /\
    buf (pointChannel s) = ["A"; "B"]%string /\
    exists s',
      run (repeat Loop (S (length (buf (pointChannel s))))) s = Next s' /\
      loop s' = AtCount ([] ++ buf (pointChannel s)) /\
      buf (pointChannel s') = [] /\
      closed (pointChannel s') = false /\
      transfers s' = transfers s /\
      logger s' = logger s.
Proof.
  eexists. split; [cbv; reflexivity|]. do 3 (split; [reflexivity|]).
  match goal with
  | |- exists s', run _ ?s = _ /\ _ =>
      exact (quiet_drain_collects_the_queue s [] eq_refl eq_refl)
  end.
Defined.

Lemma quiet_final_drain_drops_the_queue_witness :
  exists s : state string,
    run [Loop; Send "A"; Send "B"; CallClose; Tick; Loop; Loop]%string (init 2)
    = Next s /\
    loop s = AtDrain [] /\
    closed (pointChannel s) = true /\
    buf (pointChannel s) = ["A"; "B"]%string /\
    exists s',
      run (repeat Loop (S (length (buf (pointChannel s))))) s = Next s' /\
      loop s' = Exited /\
      buf (pointChannel s') = [] /\
      logger s' = logger s ++ [MsgBreaking] /\
      forall tr s'', run tr s' = Next s'' -> transfers s'' = transfers s.
Proof.
  eexists. split; [cbv; reflexivity|]. do 3 (split; [reflexivity|]).
  match goal with
  | |- exists s', run _ ?s = _ /\ _ =>
      exact (quiet_final_drain_drops_the_queue s [] eq_refl eq_refl)
  end.
Defined.

Lemma quiet_cycle_delivers_the_queue_witness :
  exists s : state string,
    run [Loop; Send "A"; Send "B"]%string (init 2) = Next s /\
    idle s /\
    buf (pointChannel s) = ["A"; "B"]%string /\
    exists s',
      run (quiet_cycle 2 (Some "timeout"%string)) s = Next s' /\
      idle s' /\
      transfers s' = [["A"; "B"]%string] /\
      reported (logger s') = [inr "timeout"%string].
Proof.
  eexists. split; [cbv; reflexivity|].
  match goal with
  | |- idle ?s /\ _ =>
      assert (idle s) as Hs by (unfold idle; cbn; auto);
      destruct (quiet_cycle_delivers_the_queue s (Some "timeout"%string) Hs)
        as (s' & H1 & H2 & _ & H3 & _ & H4); [discriminate|]
  end.
  split; [exact Hs|]. split; [reflexivity|].
  exists s'. auto.
Defined.

Lemma quiet_empty_cycle_sticks_the_flag_witness :
  exists s : state string,
    run [Loop] (init 2) = Next s /\
    idle s /\
    buf (pointChannel s) = [] /\
    exists s',
      run [Tick; Loop; Loop; Go 0; Loop; Loop] s = Next s' /\
      flag_stuck s' /\
      transfers s' = transfers s /\
      logger s' = logger s ++ [MsgEmpty].
Proof.
  eexists. split; [cbv; reflexivity|].
  match goal with
  | |- idle ?s /\ _ =>
      assert (idle s) as Hs by (unfold idle; cbn; auto);
      split; [exact Hs|]; split; [reflexivity|];
      exact (quiet_empty_cycle_sticks_the_flag s Hs eq_refl)
  end.
Defined.

End TimelineFacts.

(** ** Properties of package solar *)

Module SolarFacts.
Import Solar.

Section ServiceFacts.

Context {SolrInterface Document Result World : Type}.
Context (NewSolrInterface : string -> string -> World -> ext SolrInterface * World).
Context (si_Add : SolrInterface -> list Document -> Z -> gmap string (list string) ->
                  World -> ext (SolrResponse Result) * World).
Context (si_Delete : SolrInterface -> gmap string string -> gmap string (list string) ->
                     World -> ext (SolrResponse Result) * World).
Context (show_Result : Result -> string).
Context (ErrorEnabled : bool).

Abbreviation service := (SolrService SolrInterface Document World).

(** A method with the deferred [recoverFromFailure] always returns: a
    panic of its body does not reach the caller. *)
Lemma recoverFromFailure_returns (body : M (option string)) (ss : service) :
  exists e ss', recoverFromFailure ErrorEnabled body ss = (Returns e, ss').
Proof.
  unfold recoverFromFailure. destruct (body ss) as [[e|r] ss']; eauto.
  destruct (logIfEnabled ErrorEnabled None _ ss'). eauto.
Qed.

Lemma DeleteDocumentByQuery_returns
    (collection : string) (commit : bool) (query : string) (ss : service) :
  exists e ss',
    DeleteDocumentByQuery NewSolrInterface si_Delete show_Result ErrorEnabled
      collection commit query ss = (Returns e, ss').
Proof. apply recoverFromFailure_returns. Qed.

(** C9. Each mutation returns its error for a missing argument and leaves
    the service as it was: the cache of interfaces is not read or
    written, and no request has gone to the library. *)
Theorem missing_argument_is_rejected_first
    (collection : string) (commit : bool) (ss : service) :
  AddDocument NewSolrInterface si_Add ErrorEnabled collection commit None ss
  = (Returns (Some "document is null"%string), ss) /\
  AddDocuments NewSolrInterface si_Add ErrorEnabled collection commit None ss
  = (Returns (Some "no documents to add"%string), ss) /\
  AddDocuments NewSolrInterface si_Add ErrorEnabled collection commit (Some []) ss
  = (Returns (Some "no documents to add"%string), ss) /\
  DeleteDocumentByID NewSolrInterface si_Delete show_Result ErrorEnabled
    collection commit cEmpty ss
  = (Returns (Some "document id not informed, no document will be deleted"%string),
     ss) /\
  DeleteDocumentByQuery NewSolrInterface si_Delete show_Result ErrorEnabled
    collection commit cEmpty ss
  = (Returns (Some "query not informed, no document will be deleted"%string), ss).
Proof. repeat split. Qed.

(** C10. On an id that is not empty, [DeleteDocumentByID] returns what
    [DeleteDocumentByQuery] returns on the query ["id:" + id], and leaves
    the service in the same state. *)
Theorem DeleteDocumentByID_is_DeleteDocumentByQuery
    (collection : string) (commit : bool) (id : string) (ss : service) :
  id <> cEmpty ->
  DeleteDocumentByID NewSolrInterface si_Delete show_Result ErrorEnabled
    collection commit id ss
  = DeleteDocumentByQuery NewSolrInterface si_Delete show_Result ErrorEnabled
      collection commit (String.append "id:" id) ss.
Proof.
  intros Hid. unfold DeleteDocumentByID.
  destruct (String.eqb_spec id cEmpty) as [->|_]; [contradiction|].
  cbv zeta. unfold recoverFromFailure at 1. unfold bind.
  destruct (DeleteDocumentByQuery_returns collection commit
              (String.append "id:" id) ss) as (e & ss' & H).
  rewrite H. destruct e; reflexivity.
Qed.

End ServiceFacts.

(** A Solr that accepts everything; the world counts the requests. *)
Lemma DeleteDocumentByID_is_DeleteDocumentByQuery_witness :
  let new_si := fun (_ _ : string) (w : nat) => (Ok tt, S w) in
  let delete := fun (_ : unit) (_ : gmap string string)
                    (_ : gmap string (list string)) (w : nat) =>
                  (Ok {| Success := true; Result_ := tt |}, S w) in
  let show := fun _ : unit => "{}"%string in
  let ss : SolrService unit unit nat :=
    {| url := "http://localhost:8983/solr"; solrInterfaceCache := ∅;
       loggers := []; world := 0%nat; requests := [] |} in
  "42"%string <> cEmpty /\
  DeleteDocumentByID new_si delete show true "events" true "42" ss
  = DeleteDocumentByQuery new_si delete show true "events" true "id:42" ss.
Proof.
  intros new_si delete show ss. split; [discriminate|].
  apply (DeleteDocumentByID_is_DeleteDocumentByQuery
           new_si delete show true "events" true "42" ss).
  discriminate.
Defined.

(** The first deletion on a collection asks the library for an interface,
    caches it and issues the delete; a panic inside the library is
    recovered, logged, and the method returns [nil]. *)
Example DeleteDocumentByID_requests :
  let new_si := fun (_ _ : string) (w : nat) => (Ok tt, S w) in
  let delete := fun (_ : unit) (_ : gmap string string)
                    (_ : gmap string (list string)) (w : nat) =>
                  (@Panic (SolrResponse unit) "nil pointer", S w) in
  let show := fun _ : unit => "{}"%string in
  let ss : SolrService unit unit nat :=
    {| url := "http://localhost:8983/solr"; solrInterfaceCache := ∅;
       loggers := []; world := 0%nat; requests := [] |} in
  let '(r, ss') := DeleteDocumentByID new_si delete show true "events" true "42" ss in
  r = Returns None /\
  solrInterfaceCache ss' !! "events"%string = Some tt /\
  world ss' = 2%nat /\
  requests ss' =
    [ReqNewSolrInterface "http://localhost:8983/solr" "events";
     ReqDelete tt {["query"%string := "id:42"%string]}
               {["commit"%string := ["true"%string]]}] /\
  loggers ss' = [{| logErr := None; logMsg := "recovered from: nil pointer" |}].
Proof. vm_compute. repeat split. Qed.

(** *** More on the service *)

Ltac unfold_service :=
  unfold AddDocument, AddDocuments, DeleteDocumentByID, DeleteDocumentByQuery,
    recoverFromFailure, getSolrInterface, library, cache_Load, cache_Store,
    get_url, logIfEnabled, logError, logged, bind, ret in *.

(** Case distinction on what the code tests, innermost test first. *)
Ltac service_cases :=
  repeat (match goal with
          | |- context [match ?x with _ => _ end] =>
              lazymatch x with
              | context [match _ with _ => _ end] => fail
              | _ => destruct x eqn:?
              end
          end; cbv beta iota).

Ltac service_fields :=
  cbn [url solrInterfaceCache loggers world requests fst snd].

(** Closes a goal [exists e ss', (Returns _, _) = (Returns e, ss') /\
    extends c ss ss'] once every case distinction has been made. *)
Ltac extends_leaf c :=
  do 2 eexists; split; [reflexivity|];
  unfold extends; service_fields;
  split; [reflexivity|];
  split;
  [ intros c0 si0 H0;
    first [ exact H0
          | destruct (decide (c = c0)) as [<-|Hne];
            [ congruence | rewrite lookup_insert_ne by exact Hne; exact H0 ] ]
  | ];
  split;
  [ intros c0 Hne;
    first [ reflexivity
          | rewrite lookup_insert_ne by congruence; reflexivity ]
  | ];
  rewrite <- ?app_assoc;
  split;
  [ first [ exists []; rewrite app_nil_r; split; [reflexivity | simpl; lia]
          | eexists; split; [reflexivity | simpl; lia] ]
  | first [ exists []; rewrite app_nil_r; reflexivity
          | eexists; reflexivity ] ].

Section ServiceMore.

Context {SolrInterface Document Result World : Type}.
Context (NewSolrInterface : string -> string -> World -> ext SolrInterface * World).
Context (si_Add : SolrInterface -> list Document -> Z -> gmap string (list string) ->
                  World -> ext (SolrResponse Result) * World).
Context (si_Delete : SolrInterface -> gmap string string -> gmap string (list string) ->
                     World -> ext (SolrResponse Result) * World).
Context (show_Result : Result -> string).
Context (ErrorEnabled : bool).

Abbreviation svc := (SolrService SolrInterface Document World).

(** X15. An interface that [getSolrInterface] returns is in the cache
    afterwards, and asking again returns the same interface and does
    nothing else. When the collection was cached already the call did
    nothing at all; when it was not, the call made the one
    [NewSolrInterface] request, with the url of the service. *)
Theorem getSolrInterface_caches (collection : string) (ss ss' : svc)
    (si : SolrInterface) :
  getSolrInterface NewSolrInterface ErrorEnabled collection ss
  = (Returns (inl si), ss') ->
  solrInterfaceCache ss' !! collection = Some si /\
  getSolrInterface NewSolrInterface ErrorEnabled collection ss'
  = (Returns (inl si), ss') /\
  (forall si0, solrInterfaceCache ss !! collection = Some si0 ->
               si0 = si /\ ss' = ss) /\
  (solrInterfaceCache ss !! collection = None ->
   requests ss' = requests ss ++ [ReqNewSolrInterface (url ss) collection]).
Proof.
  unfold_service.
  destruct (solrInterfaceCache ss !! collection) eqn:Hc.
  - intros [= <- <-]. rewrite Hc. repeat split; auto; congruence.
  - destruct (NewSolrInterface (url ss) collection (world ss)) as [[si1|e|r] w].
    + intros [= <- <-]. cbn. rewrite lookup_insert_eq.
      repeat split; auto; congruence.
    + destruct ErrorEnabled; intros [=].
    + intros [=].
Qed.

(** X16. An error of [NewSolrInterface] is returned as it is and is not
    cached: the cache is as it was, so that the next call asks the
    library again; the one request was made and, when errors are logged,
    one line was written. *)
Theorem getSolrInterface_error_is_not_cached (collection : string)
    (ss ss' : svc) (e : string) :
  getSolrInterface NewSolrInterface ErrorEnabled collection ss
  = (Returns (inr e), ss') ->
  solrInterfaceCache ss !! collection = None /\
  fst (NewSolrInterface (url ss) collection (world ss)) = Err e /\
  solrInterfaceCache ss' = solrInterfaceCache ss /\
  requests ss' = requests ss ++ [ReqNewSolrInterface (url ss) collection] /\
  loggers ss' =
    loggers ss ++
    logged ErrorEnabled
      [{| logErr := Some e;
          logMsg := "error creating a new instance of solr interface" |}].
Proof.
  unfold_service.
  destruct (solrInterfaceCache ss !! collection) eqn:Hc.
  - intros [=].
  - destruct (NewSolrInterface (url ss) collection (world ss)) as [[si1|e1|r] w].
    + intros [=].
    + destruct ErrorEnabled; intros [= <- <-]; cbn;
        rewrite ?app_nil_r; auto.
    + intros [=].
Qed.

(** X17. No panic leaves a method, and a method only adds to the service: it
    returns, with the url as it was, every interface that was cached
    still cached, the cache entries of the other collections untouched,
    and the requests (at most two) and the log lines only appended. *)
Theorem methods_return_and_only_extend (collection : string) (commit : bool)
    (ss : svc) :
  (forall doc, exists e ss',
      AddDocument NewSolrInterface si_Add ErrorEnabled collection commit doc ss
      = (Returns e, ss') /\ extends collection ss ss') /\
  (forall docs, exists e ss',
      AddDocuments NewSolrInterface si_Add ErrorEnabled collection commit docs ss
      = (Returns e, ss') /\ extends collection ss ss') /\
  (forall query, exists e ss',
      DeleteDocumentByQuery NewSolrInterface si_Delete show_Result ErrorEnabled
        collection commit query ss
      = (Returns e, ss') /\ extends collection ss ss') /\
  (forall id, exists e ss',
      DeleteDocumentByID NewSolrInterface si_Delete show_Result ErrorEnabled
        collection commit id ss
      = (Returns e, ss') /\ extends collection ss ss').
Proof.
  split; [|split; [|split]]; intros x; unfold_service;
    service_cases; simplify_eq; extends_leaf collection.
Qed.

Lemma query_by_id_is_not_empty (id : string) :
  String.eqb (String.append "id:" id) cEmpty = false.
Proof. reflexivity. Qed.

(** [AddDocument] on a document is [AddDocuments] on that document
    alone: the same result, the same requests, the same service
    afterwards. *)
Lemma AddDocument_is_AddDocuments_of_one (collection : string)
    (commit : bool) (d : Document) (ss : svc) :
  AddDocument NewSolrInterface si_Add ErrorEnabled collection commit (Some d) ss
  = AddDocuments NewSolrInterface si_Add ErrorEnabled collection commit
      (Some [d]) ss.
Proof. reflexivity. Qed.

(** X19. [AddDocuments] with documents, on a collection whose interface is
    cached: one [Add] request is made, with the documents, chunk size 0
    and the commit parameter, and the cache is not touched. An error of
    the library is returned as it is. A panic of the library is
    recovered, and the method then returns [nil], as it does when the
    documents were added. *)
Theorem AddDocuments_outcomes (collection : string) (commit : bool)
    (docs : list Document) (si : SolrInterface)
    (r : ext (SolrResponse Result)) (w : World) (ss : svc) :
  docs <> [] ->
  solrInterfaceCache ss !! collection = Some si ->
  si_Add si docs 0 (commit_params commit) (world ss) = (r, w) ->
  exists ss',
    AddDocuments NewSolrInterface si_Add ErrorEnabled collection commit
      (Some docs) ss
    = (Returns match r with
               | Ok _ => None
               | Err e => Some e
               | Panic _ => None
               end, ss') /\
    world ss' = w /\
    url ss' = url ss /\
    solrInterfaceCache ss' = solrInterfaceCache ss /\
    requests ss' = requests ss ++ [ReqAdd si docs 0 (commit_params commit)] /\
    loggers ss' =
      loggers ss ++
      match r with
      | Panic p =>
          logged ErrorEnabled
            [{| logErr := None; logMsg := String.append "recovered from: " p |}]
      | _ => []
      end.
Proof.
  intros Hd Hc Ha. destruct docs as [|d docs]; [contradiction|].
  unfold_service. cbn [length Nat.eqb]. cbv beta iota.
  rewrite Hc. cbv beta iota zeta. rewrite Ha.
  destruct r as [resp|e|p]; cbv beta iota;
    try (eexists; split; [reflexivity|]; service_fields;
         rewrite ?app_nil_r; auto 10).
  destruct ErrorEnabled;
    (eexists; split; [reflexivity|]; service_fields;
     rewrite ?app_nil_r; auto 10).
Qed.

(** X20. [DeleteDocumentByID] with an id, on a collection whose interface is
    cached: one [Delete] request is made, for the query ["id:" + id] with
    the commit parameter. A response without success becomes an error
    that shows the result, an error of the library is returned as it is,
    and a panic of the library is recovered and reported as [nil]. *)
Theorem DeleteDocumentByID_outcomes (collection : string) (commit : bool)
    (id : string) (si : SolrInterface)
    (r : ext (SolrResponse Result)) (w : World) (ss : svc) :
  id <> cEmpty ->
  solrInterfaceCache ss !! collection = Some si ->
  si_Delete si (<[cQuery := String.append "id:" id]> ∅)
    (commit_params commit) (world ss) = (r, w) ->
  exists ss',
    DeleteDocumentByID NewSolrInterface si_Delete show_Result ErrorEnabled
      collection commit id ss
    = (Returns match r with
               | Ok resp =>
                   if Success resp then None
                   else Some (String.append "error deleting documents: "
                                (show_Result (Result_ resp)))
               | Err e => Some e
               | Panic _ => None
               end, ss') /\
    world ss' = w /\
    url ss' = url ss /\
    solrInterfaceCache ss' = solrInterfaceCache ss /\
    requests ss' =
      requests ss ++
      [ReqDelete si (<[cQuery := String.append "id:" id]> ∅)
         (commit_params commit)] /\
    loggers ss' =
      loggers ss ++
      match r with
      | Panic p =>
          logged ErrorEnabled
            [{| logErr := None; logMsg := String.append "recovered from: " p |}]
      | _ => []
      end.
Proof.
  intros Hid Hc Hd. unfold_service.
  destruct (String.eqb_spec id cEmpty) as [->|_]; [contradiction|].
  cbv zeta. rewrite (query_by_id_is_not_empty id). cbv beta iota.
  rewrite Hc. cbv beta iota zeta. rewrite Hd.
  destruct r as [resp|e|p]; cbv beta iota.
  - destruct (Success resp); cbn [negb]; cbv beta iota;
      (eexists; split; [reflexivity|]; service_fields;
       rewrite ?app_nil_r; auto 10).
  - eexists; split; [reflexivity|]; service_fields;
      rewrite ?app_nil_r; auto 10.
  - destruct ErrorEnabled;
      (eexists; split; [reflexivity|]; service_fields;
       rewrite ?app_nil_r; auto 10).
Qed.

(** X21. When the collection is not cached and [NewSolrInterface] fails, each
    method called with its argument present returns that error and does
    nothing more: no [Add] or [Delete] request follows, nothing is
    cached, and the error is logged twice when errors are logged, by
    [getSolrInterface] and by the method. *)
Theorem interface_error_stops_every_method (collection : string)
    (commit : bool) (e : string) (w : World) (ss : svc) :
  solrInterfaceCache ss !! collection = None ->
  NewSolrInterface (url ss) collection (world ss) = (Err e, w) ->
  let ss' : svc :=
    {| url := url ss; solrInterfaceCache := solrInterfaceCache ss;
       loggers :=
         loggers ss ++
         logged ErrorEnabled
           [{| logErr := Some e;
               logMsg := "error creating a new instance of solr interface" |};
            {| logErr := Some e; logMsg := "error getting solr interface" |}];
       world := w;
       requests := requests ss ++ [ReqNewSolrInterface (url ss) collection] |} in
  (forall d,
     AddDocument NewSolrInterface si_Add ErrorEnabled collection commit
       (Some d) ss = (Returns (Some e), ss')) /\
  (forall docs, docs <> [] ->
     AddDocuments NewSolrInterface si_Add ErrorEnabled collection commit
       (Some docs) ss = (Returns (Some e), ss')) /\
  (forall query, query <> cEmpty ->
     DeleteDocumentByQuery NewSolrInterface si_Delete show_Result ErrorEnabled
       collection commit query ss = (Returns (Some e), ss')) /\
  (forall id, id <> cEmpty ->
     DeleteDocumentByID NewSolrInterface si_Delete show_Result ErrorEnabled
       collection commit id ss = (Returns (Some e), ss')).
Proof.
  intros Hc Hn ss'. subst ss'.
  assert (forall (l : list logLine) a b, (l ++ [a]) ++ [b] = l ++ [a; b]) as Hl
    by (intros; rewrite <- app_assoc; reflexivity).
  split; [|split; [|split]].
  - intros d. unfold_service. cbv beta iota. rewrite Hc. cbv beta iota.
    rewrite Hn. destruct ErrorEnabled; cbv beta iota; service_fields;
      rewrite ?Hl, ?app_nil_r; reflexivity.
  - intros [|d docs] Hd; [contradiction|].
    unfold_service. cbn [length Nat.eqb]. cbv beta iota. rewrite Hc.
    cbv beta iota. rewrite Hn.
    destruct ErrorEnabled; cbv beta iota; service_fields;
      rewrite ?Hl, ?app_nil_r; reflexivity.
  - intros query Hq. unfold_service.
    destruct (String.eqb_spec query cEmpty) as [->|_]; [contradiction|].
    cbv beta iota. rewrite Hc. cbv beta iota. rewrite Hn.
    destruct ErrorEnabled; cbv beta iota; service_fields;
      rewrite ?Hl, ?app_nil_r; reflexivity.
  - intros id Hid. unfold_service.
    destruct (String.eqb_spec id cEmpty) as [->|_]; [contradiction|].
    cbv zeta. rewrite (query_by_id_is_not_empty id). cbv beta iota.
    rewrite Hc. cbv beta iota. rewrite Hn.
    destruct ErrorEnabled; cbv beta iota; service_fields;
      rewrite ?Hl, ?app_nil_r; reflexivity.
Qed.

End ServiceMore.

Section ConstructorFacts.

Context {SolrInterface Document World CollectionsAdmin : Type}.
Context (NewCollectionsAdmin : string -> World -> ext CollectionsAdmin * World).
Context (NewSolrInterface : string -> string -> World -> ext SolrInterface * World).
Context (ErrorEnabled : bool).

(** X18. A service that [NewSolrService] returns was built from the admin
    that [NewCollectionsAdmin] returned for the url, keeps that url, and
    has nothing cached: the first time any collection is asked for, the
    library is asked for an interface, with the url given to
    [NewSolrService]. *)
Theorem NewSolrService_starts_with_nothing_cached (u : string) (w w' : World)
    (ref : SolrServiceRef SolrInterface Document World CollectionsAdmin) :
  NewSolrService NewCollectionsAdmin u w = (Ok ref, w') ->
  NewCollectionsAdmin u w = (Ok (solrCollectionsAdmin ref), w') /\
  url (service ref) = u /\
  solrInterfaceCache (service ref) = ∅ /\
  forall collection, exists r ss',
    getSolrInterface NewSolrInterface ErrorEnabled collection (service ref)
    = (r, ss') /\
    requests ss' = [ReqNewSolrInterface u collection].
Proof.
  unfold NewSolrService.
  destruct (NewCollectionsAdmin u w) as [[sca|e|r] w1]; intros [= <- <-].
  cbn [solrCollectionsAdmin service url solrInterfaceCache].
  repeat split; auto.
  intros collection. unfold_service. cbv beta iota. service_fields.
  rewrite lookup_empty. cbv beta iota. service_fields.
  destruct (NewSolrInterface u collection w1) as [[si|e|r] w2];
    cbv beta iota; try destruct ErrorEnabled; cbv beta iota;
    do 2 eexists; (split; [reflexivity|]); reflexivity.
Qed.

End ConstructorFacts.

(** Witnesses: a Solr that accepts everything, one that cannot be
    reached, one whose [Add] and [Delete] panic; the world counts the
    requests. *)

Lemma getSolrInterface_caches_witness :
  let new_si := fun (_ _ : string) (w : nat) => (Ok tt, S w) in
  let ss : SolrService unit unit nat :=
    {| url := "http://localhost:8983/solr"; solrInterfaceCache := ∅;
       loggers := []; world := 0%nat; requests := [] |} in
  exists ss',
    getSolrInterface new_si true "events" ss = (Returns (inl tt), ss') /\
    solrInterfaceCache ss' !! "events"%string = Some tt /\
    getSolrInterface new_si true "events" ss' = (Returns (inl tt), ss') /\
    requests ss' = [ReqNewSolrInterface "http://localhost:8983/solr" "events"].
Proof.
  intros new_si ss. eexists. split; [vm_compute; reflexivity|].
  match goal with
  | |- solrInterfaceCache ?ss' !! _ = _ /\ _ =>
      destruct (getSolrInterface_caches new_si true "events" ss ss' tt eq_refl)
        as (H1 & H2 & _ & H3)
  end.
  split; [exact H1|]. split; [exact H2|]. exact (H3 eq_refl).
Defined.

Lemma getSolrInterface_error_is_not_cached_witness :
  let new_si := fun (_ _ : string) (w : nat) =>
                  (@Err unit "connection refused", S w) in
  let ss : SolrService unit unit nat :=
    {| url := "http://localhost:8983/solr"; solrInterfaceCache := ∅;
       loggers := []; world := 0%nat; requests := [] |} in
  exists ss',
    getSolrInterface new_si true "events" ss
    = (Returns (inr "connection refused"%string), ss') /\
    solrInterfaceCache ss' = solrInterfaceCache ss /\
    requests ss' = [ReqNewSolrInterface "http://localhost:8983/solr" "events"].
Proof.
  intros new_si ss. eexists. split; [vm_compute; reflexivity|].
  match goal with
  | |- solrInterfaceCache ?ss' = _ /\ _ =>
      destruct (getSolrInterface_error_is_not_cached new_si true "events" ss ss'
                  "connection refused" eq_refl) as (_ & _ & H1 & H2 & _)
  end.
  split; [exact H1 | exact H2].
Defined.

Lemma AddDocuments_outcomes_witness :
  let new_si := fun (_ _ : string) (w : nat) => (Ok tt, S w) in
  let add := fun (_ : unit) (_ : list nat) (_ : Z)
                 (_ : gmap string (list string)) (w : nat) =>
               (@Panic (SolrResponse unit) "nil pointer", S w) in
  let ss : SolrService unit nat nat :=
    {| url := "http://localhost:8983/solr";
       solrInterfaceCache := {["events"%string := tt]};
       loggers := []; world := 0%nat; requests := [] |} in
  [7%nat] <> [] /\
  solrInterfaceCache ss !! "events"%string = Some tt /\
  exists ss',
    AddDocuments new_si add true "events" true (Some [7%nat]) ss
    = (Returns None, ss') /\
    requests ss' = [ReqAdd tt [7%nat] 0 (commit_params true)] /\
    loggers ss' = [{| logErr := None; logMsg := "recovered from: nil pointer" |}].
Proof.
  intros new_si add ss. split; [discriminate|]. split; [reflexivity|].
  destruct (AddDocuments_outcomes new_si add true "events" true [7%nat] tt
              (Panic "nil pointer") 1%nat ss)
    as (ss' & H1 & _ & _ & _ & H2 & H3);
    [discriminate | reflexivity | reflexivity |].
  exists ss'. auto.
Defined.

Lemma DeleteDocumentByID_outcomes_witness :
  let new_si := fun (_ _ : string) (w : nat) => (Ok tt, S w) in
  let delete := fun (_ : unit) (_ : gmap string string)
                    (_ : gmap string (list string)) (w : nat) =>
                  (Ok {| Success := false; Result_ := tt |}, S w) in
  let show := fun _ : unit => "{}"%string in
  let ss : SolrService unit unit nat :=
    {| url := "http://localhost:8983/solr";
       solrInterfaceCache := {["events"%string := tt]};
       loggers := []; world := 0%nat; requests := [] |} in
  "42"%string <> cEmpty /\
  solrInterfaceCache ss !! "events"%string = Some tt /\
  exists ss',
    DeleteDocumentByID new_si delete show true "events" false "42" ss
    = (Returns (Some "error deleting documents: {}"%string), ss') /\
    requests ss' =
      [ReqDelete tt {["query"%string := "id:42"%string]} (commit_params false)].
Proof.
  intros new_si delete show ss. split; [discriminate|]. split; [reflexivity|].
  destruct (DeleteDocumentByID_outcomes new_si delete show true "events" false
              "42" tt (Ok {| Success := false; Result_ := tt |}) 1%nat ss)
    as (ss' & H1 & _ & _ & _ & H2 & _);
    [discriminate | reflexivity | reflexivity |].
  exists ss'. auto.
Defined.

Lemma interface_error_stops_every_method_witness :
  let new_si := fun (_ _ : string) (w : nat) =>
                  (@Err unit "connection refused", S w) in
  let add := fun (_ : unit) (_ : list nat) (_ : Z)
                 (_ : gmap string (list string)) (w : nat) =>
               (Ok {| Success := true; Result_ := tt |}, S w) in
  let ss : SolrService unit nat nat :=
    {| url := "http://localhost:8983/solr"; solrInterfaceCache := ∅;
       loggers := []; world := 0%nat; requests := [] |} in
  solrInterfaceCache ss !! "events"%string = None /\
  exists ss',
    AddDocument new_si add true "events" true (Some 7%nat) ss
    = (Returns (Some "connection refused"%string), ss') /\
    requests ss' = [ReqNewSolrInterface "http://localhost:8983/solr" "events"] /\
    length (loggers ss') = 2%nat.
Proof.
  intros new_si add ss. split; [reflexivity|].
  pose proof (interface_error_stops_every_method new_si add
                (fun _ _ _ w => (@Err (SolrResponse unit) "unused", w))
                (fun _ => EmptyString) true "events" true
                "connection refused" 1%nat ss eq_refl eq_refl) as [H _].
  eexists. split; [exact (H 7%nat)|]. split; reflexivity.
Defined.

Lemma NewSolrService_starts_with_nothing_cached_witness :
  let new_admin := fun (_ : string) (w : nat) => (Ok tt, S w) in
  let new_si := fun (_ _ : string) (w : nat) => (Ok tt, S w) in
  exists ref : SolrServiceRef unit unit nat unit,
    NewSolrService new_admin "http://localhost:8983/solr" 0%nat = (Ok ref, 1%nat) /\
    url (service ref) = "http://localhost:8983/solr"%string /\
    exists r ss',
      getSolrInterface new_si true "events" (service ref) = (r, ss') /\
      requests ss' = [ReqNewSolrInterface "http://localhost:8983/solr" "events"].
Proof.
  intros new_admin new_si. eexists. split; [reflexivity|].
  match goal with
  | |- url (service ?ref) = _ /\ _ =>
      destruct (NewSolrService_starts_with_nothing_cached new_admin new_si true
                  "http://localhost:8983/solr" 0%nat 1%nat ref eq_refl)
        as (_ & H1 & _ & H2)
  end.
  split; [exact H1 | exact (H2 "events"%string)].
Defined.

End SolarFacts.
